(** * django-package-monitor: the refresh_packages command and the admin

    A shallow embedding of
      - package_monitor/management/commands/refresh_packages.py
        (create_package_version, local, remote, clean, Command.handle), and
      - package_monitor/admin.py
        (html_list, check_pypi, UpdateAvailableListFilter.queryset,
        PackageVersionAdmin._updateable and .available_updates),
    over an explicit world: the record store, the log, the clock and the
    trace of index queries.  Python exceptions are results of a small
    state-and-error monad; the state survives a raise, as it does in Python.

    The model class PackageVersion (models.py), the index client (pypi.py)
    and the version type live outside the two source files.  What the
    commands need of them is taken from the specification and marked so. *)

From Stdlib Require Import Ascii String.
From stdpp Require Import gmap strings list fin_maps pretty.

(** ** Data model *)

(** Modelled from the spec: the Version Model (section 4.1) is absent from
    the sources.  A version is its three leading numeric segments, the only
    part the diff classifier (section 4.4) looks at; parsing a version string
    is a collaborator of the environment below. *)
Record Version := mkVersion { major : nat; minor : nat; patch : nat }.

Global Instance Version_eq_dec : EqDecision Version.
Proof. solve_decision. Defined.

Definition version_ltb (a b : Version) : bool :=
  if decide (major a = major b) then
    if decide (minor a = minor b) then bool_decide (patch a < patch b)
    else bool_decide (minor a < minor b)
  else bool_decide (major a < major b).

Definition version_max (a b : Version) : Version :=
  if version_ltb a b then b else a.

Definition version_min (a b : Version) : Version :=
  if version_ltb b a then b else a.

(** Modelled from the spec: the diff_status enumeration of section 3. *)
Inductive DiffStatus := Unknown | UpToDate | Patch | Minor | Major.

Global Instance DiffStatus_eq_dec : EqDecision DiffStatus.
Proof. solve_decision. Defined.

Definition Timestamp := nat.

(** Modelled from the spec: the PackageRecord of section 3, the fields of the
    PackageVersion model that models.py declares. *)
Record PackageVersion := mkPackageVersion {
  package_name : string;
  is_editable : bool;
  is_parseable : bool;
  current_version : option Version;
  next_version : option Version;
  latest_version : option Version;
  raw : string;
  licence : option string;
  python_support : list string;
  supports_py3 : bool;
  diff_status : DiffStatus;
  checked_pypi_at : option Timestamp;
  url : option string
}.

Global Instance PackageVersion_eq_dec : EqDecision PackageVersion.
Proof. solve_decision. Defined.

(** A parsed line of the requirements file, as the requirements parser hands
    it to [local]: the command itself reads [r.name] and [r.uri] only. *)
Record Requirement := mkRequirement {
  req_name : option string;
  req_uri : option string;
  req_editable : bool;
  req_version : option string;
  req_line : string
}.

Global Instance Requirement_eq_dec : EqDecision Requirement.
Proof. solve_decision. Defined.

(** Modelled from the spec: what the Index Client (section 4.3) answers for a
    package name. *)
Record IndexData := mkIndexData {
  idx_versions : list string;
  idx_licence : option string;
  idx_python_support : list string;
  idx_url : option string;
  idx_raw : string
}.

(** The exceptions the commands raise or catch.  [TypeError] is what
    Python 3 raises for an order comparison with [None];
    [TemplateDoesNotExist] stands for a failure to render a template. *)
Inductive Exception :=
| IntegrityError
| DoesNotExist
| PackageNotFound
| IndexUnavailable
| TypeError
| TemplateDoesNotExist.

Global Instance Exception_eq_dec : EqDecision Exception.
Proof. solve_decision. Defined.

(** ** Logging *)

Inductive LogLevel := DEBUG | INFO | ERROR.

Global Instance LogLevel_eq_dec : EqDecision LogLevel.
Proof. solve_decision. Defined.

(** One constructor per logging call of the two source files. *)
Inductive LogMsg :=
| MsgPackageAdded (name : option string)
| MsgPackageExists (name : option string)
| MsgLoadingLocal
| MsgCreating (r : Requirement)
| MsgSkippingMissing (r : Requirement)
| MsgFetching
| MsgSkippingEditable (pv : PackageVersion)
| MsgUpdated (pv : PackageVersion)
| MsgUpdateFailed (pv : PackageVersion) (e : Exception)
| MsgDeletedAll
| MsgIgnoringEditable (name : string).

Definition LogEntry : Type := LogLevel * LogMsg.

(** ** The world and the environment *)

Record World := mkWorld {
  db : gmap string PackageVersion;
  log : list LogEntry;
  ticks : nat;
  index_queries : list string
}.

(** A value of the dict [remote] returns: a list of records under a status
    key, a timestamp under 'refreshed_at'. *)
Inductive ResultValue :=
| Records (l : list PackageVersion)
| Time (t : Timestamp).

(** The collaborators outside the two source files.  [index] is the package
    index; [clock n] is what the [n]-th call of [tz_now] reads;
    [PackageVersion_init] is the model's constructor
    [PackageVersion(requirement=r)]; [version_str] is [str] on a version;
    [render_to_string] is Django's, on a template name and the context
    [handle] gives it. *)
Record Env := mkEnv {
  index : string → Exception + IndexData;
  clock : nat → Timestamp;
  parse_version : string → option Version;
  py3_of : list string → bool;
  PackageVersion_init : Requirement → PackageVersion;
  version_str : Version → string;
  render_to_string :
    string → gmap string ResultValue → Exception + string
}.

(** ** A state-and-error monad *)

Inductive Result (A : Type) :=
| Ok (a : A)
| Raise (e : Exception).
Arguments Ok {A} a.
Arguments Raise {A} e.

Definition M (A : Type) : Type := World → Result A * World.

Global Instance M_ret : MRet M := λ A a w, (Ok a, w).

Global Instance M_bind : MBind M := λ A B f m w,
  match m w with
  | (Ok a, w') => f a w'
  | (Raise e, w') => (Raise e, w')
  end.

Definition raise {A} (e : Exception) : M A := λ w, (Raise e, w).

(** [try: body except <handles>: handler]; an exception the clause does not
    name goes on to the caller. *)
Definition try_except {A} (body : M A) (handles : Exception → bool)
    (handler : Exception → M A) : M A := λ w,
  match body w with
  | (Ok a, w') => (Ok a, w')
  | (Raise e, w') => if handles e then handler e w' else (Raise e, w')
  end.

Definition logger (lvl : LogLevel) (msg : LogMsg) : M () := λ w,
  (Ok (), mkWorld (db w) (log w ++ [(lvl, msg)]) (ticks w) (index_queries w)).

Fixpoint foldM {A B} (f : A → B → M A) (l : list B) (a : A) : M A :=
  match l with
  | [] => mret a
  | b :: l' => a' ← f a b; foldM f l' a'
  end.

(** The diff_status strings that key the result mapping of [remote]. *)
Definition status_key (s : DiffStatus) : string :=
  match s with
  | Unknown => "unknown"
  | UpToDate => "up-to-date"
  | Patch => "patch"
  | Minor => "minor"
  | Major => "major"
  end.

(** The rows of a table, as a list. *)
Definition rows (m : gmap string PackageVersion) : list PackageVersion :=
  (map_to_list m).*2.

Section Model.
Context (env : Env).

(** [tz_now()]: the next reading of the clock. *)
Definition tz_now : M Timestamp := λ w,
  (Ok (clock env (ticks w)),
   mkWorld (db w) (log w) (S (ticks w)) (index_queries w)).

(** ** The record store *)

(** Modelled from the spec: the Record Store Adapter of section 6, keyed by
    package name.  Saving a new object is [create], which fails on a
    duplicate name (Django's IntegrityError on the unique column).  As
    Django's [Model.save], it hands back [None]. *)
Definition save_new (pv : PackageVersion) : M (option PackageVersion) := λ w,
  match db w !! package_name pv with
  | Some _ => (Raise IntegrityError, w)
  | None =>
      (Ok None,
       mkWorld (<[package_name pv := pv]> (db w)) (log w) (ticks w)
         (index_queries w))
  end.

(** Modelled from the spec: [update(record)] of section 6, the save of an
    object that has a row. *)
Definition save (pv : PackageVersion) : M () := λ w,
  (Ok (),
   mkWorld (<[package_name pv := pv]> (db w)) (log w) (ticks w)
     (index_queries w)).

(** Modelled from the spec: [get(name)] of section 6, with Django's
    DoesNotExist for an absent row; a [None] name matches no row. *)
Definition objects_get (name : option string) : M PackageVersion := λ w,
  match name ≫= (db w !!.) with
  | Some pv => (Ok pv, w)
  | None => (Raise DoesNotExist, w)
  end.

(** [PackageVersion.objects.exclude(is_editable=True)], evaluated. *)
Definition objects_exclude_editable : M (list PackageVersion) := λ w,
  (Ok (filter (λ pv, is_editable pv = false) (rows (db w))), w).

(** [PackageVersion.objects.all().delete()]. *)
Definition objects_delete_all : M () := λ w,
  (Ok (), mkWorld ∅ (log w) (ticks w) (index_queries w)).

(** ** The index and the classifier *)

(** Modelled from the spec: one query of the Index Client (section 4.3); it
    fails with PackageNotFound or IndexUnavailable.  The query is recorded. *)
Definition query_index (name : string) : M IndexData := λ w,
  let w' := mkWorld (db w) (log w) (ticks w) (index_queries w ++ [name]) in
  match index env name with
  | inl e => (Raise e, w')
  | inr d => (Ok d, w')
  end.

(** Modelled from the spec: the Diff Classifier of section 4.4. *)
Definition classify (current latest : option Version) (editable : bool)
    : DiffStatus :=
  if editable then Unknown
  else match latest, current with
       | None, _ => Unknown
       | _, None => Unknown
       | Some l, Some c =>
           if decide (c = l) then UpToDate
           else if decide (major c = major l) then
                  if decide (minor c = minor l) then Patch else Minor
                else Major
       end.

Definition parsed_versions (d : IndexData) : list Version :=
  omap (parse_version env) (idx_versions d).

Definition fold_versions (f : Version → Version → Version)
    (l : list Version) : option Version :=
  match l with
  | [] => None
  | v :: l' => Some (foldl f v l')
  end.

(** Modelled from the spec: the maximum of the published versions that
    parse. *)
Definition latest_of (d : IndexData) : option Version :=
  fold_versions version_max (parsed_versions d).

(** Modelled from the spec: the smallest published version strictly above
    the current one; none when there is no current version. *)
Definition next_of (current : option Version) (d : IndexData)
    : option Version :=
  match current with
  | None => None
  | Some c =>
      fold_versions version_min
        (filter (λ v, version_ltb c v = true) (parsed_versions d))
  end.

(** Modelled from the spec: the fields a successful index query sets
    (section 4.5, remote reconciliation). *)
Definition with_index_data (pv : PackageVersion) (d : IndexData)
    (t : Timestamp) : PackageVersion :=
  let latest := latest_of d in
  {| package_name := package_name pv;
     is_editable := is_editable pv;
     is_parseable := is_parseable pv;
     current_version := current_version pv;
     next_version := next_of (current_version pv) d;
     latest_version := latest;
     raw := idx_raw d;
     licence := idx_licence d;
     python_support := idx_python_support d;
     supports_py3 := py3_of env (idx_python_support d);
     diff_status := classify (current_version pv) latest (is_editable pv);
     checked_pypi_at := Some t;
     url := idx_url d |}.

(** Modelled from the spec: [PackageVersion.update_from_pypi] (models.py is
    absent).  Query the index; on success set the fields, stamp the record
    and persist it; on failure raise with nothing touched.  The updated
    object is the value. *)
Definition update_from_pypi (pv : PackageVersion) : M PackageVersion :=
  d ← query_index (package_name pv);
  t ← tz_now;
  let pv' := with_index_data pv d t in
  save pv';;
  mret pv'.

(** ** refresh_packages.py *)

Definition create_package_version (requirement : Requirement)
    : M (option PackageVersion) :=
  try_except
    (pv ← save_new (PackageVersion_init env requirement);
     logger INFO (MsgPackageAdded (req_name requirement));;
     mret pv)
    (λ e, bool_decide (e = IntegrityError))
    (λ _, logger INFO (MsgPackageExists (req_name requirement));;
          mret None).

(** [r.name or r.uri]: the name when it is a non-empty string, else the
    uri (which may be [None]). *)
Definition name_or_uri (r : Requirement) : option string :=
  match req_name r with
  | Some n => if decide (n = "") then req_uri r else Some n
  | None => req_uri r
  end.

(** One turn of the loop of [local]; [None] from the inner block is the
    [continue]. *)
Definition local_step (packages : list PackageVersion) (r : Requirement)
    : M (list PackageVersion) :=
  logger DEBUG (MsgCreating r);;
  pv ← create_package_version r;
  found ← match pv with
          | Some pv => mret (Some pv)
          | None =>
              let name := name_or_uri r in
              try_except
                (pv ← objects_get name; mret (Some pv))
                (λ e, bool_decide (e = DoesNotExist))
                (λ _, logger ERROR (MsgSkippingMissing r);; mret None)
          end;
  match found with
  | Some pv => mret (packages ++ [pv])
  | None => mret packages
  end.

(** [local()], on the requirements parsed from REQUIREMENTS_FILE. *)
Definition local (requirements : list Requirement)
    : M (list PackageVersion) :=
  logger INFO MsgLoadingLocal;;
  foldM local_step requirements [].



(** [results[key].append(pv)] on a [defaultdict(list)]. *)
Definition dd_append (key : string) (pv : PackageVersion)
    (results : gmap string (list PackageVersion))
    : gmap string (list PackageVersion) :=
  <[key := default [] (results !! key) ++ [pv]]> results.

(** One turn of the loop of [remote]. *)
Definition remote_step (results : gmap string (list PackageVersion))
    (pv : PackageVersion) : M (gmap string (list PackageVersion)) :=
  if is_editable pv then
    logger DEBUG (MsgSkippingEditable pv);;
    mret results
  else
    try_except
      (pv' ← update_from_pypi pv;
       let results' := dd_append (status_key (diff_status pv')) pv' results in
       logger DEBUG (MsgUpdated pv');;
       mret results')
      (λ _, true)
      (λ e, logger ERROR (MsgUpdateFailed pv e);; mret results).

(** [not packages]: [None] and the empty list are both falsy. *)
Definition falsy (packages : option (list PackageVersion)) : bool :=
  match packages with
  | None | Some [] => true
  | Some (_ :: _) => false
  end.

(** [remote(packages=None)].  Inside the loop the dict holds lists only;
    'refreshed_at' is stored after it.  The records of a batch are values:
    each element stands for an object of its own, as the objects of a
    queryset and the ones [local] collects are. *)
Definition remote (packages : option (list PackageVersion))
    : M (gmap string ResultValue) :=
  logger INFO MsgFetching;;
  pkgs ← (if falsy packages then objects_exclude_editable
          else mret (default [] packages));
  results ← foldM remote_step pkgs ∅;
  t ← tz_now;
  mret (<["refreshed_at" := Time t]> (Records <$> results)).

Definition clean : M () :=
  objects_delete_all;;
  logger INFO MsgDeletedAll.

(** ** admin.py *)

(** [check_pypi(modeladmin, request, queryset)]: no try block here, so a
    failing update ends the action. *)
Definition check_pypi_step (_ : ()) (p : PackageVersion) : M () :=
  if is_editable p then
    logger DEBUG (MsgIgnoringEditable (package_name p))
  else
    update_from_pypi p;; mret ().

Definition check_pypi (queryset : list PackageVersion) : M () :=
  foldM check_pypi_step queryset ().

End Model.

(** [UpdateAvailableListFilter.queryset]: [value] is the filter's query
    parameter.  A comparison with a NULL column selects nothing, which the
    explicit isnull tests already ensure. *)
Definition queryset (value : option string) (qs : list PackageVersion)
    : list PackageVersion :=
  if decide (value = Some "-1") then
    filter (λ pv, latest_version pv = None) qs
  else if decide (value = Some "0") then
    filter (λ pv, current_version pv ≠ None ∧ latest_version pv ≠ None
                  ∧ latest_version pv = current_version pv) qs
  else if decide (value = Some "1") then
    filter (λ pv, ¬ (latest_version pv = current_version pv))
      (filter (λ pv, current_version pv ≠ None ∧ latest_version pv ≠ None)
         qs)
  else qs.

(** The values offered by [UpdateAvailableListFilter.lookups]. *)
Definition lookups : list (string * string) :=
  [("1", "Yes"); ("0", "No"); ("-1", "Unknown")].

(** ** Derived descriptions of a run *)

(** What one turn of [remote] stores for [pv] when the clock reads [t]:
    nothing for an editable record or a failing query. *)
Definition step_update (env : Env) (t : Timestamp) (pv : PackageVersion)
    : option PackageVersion :=
  if is_editable pv then None
  else match index env (package_name pv) with
       | inl _ => None
       | inr d => Some (with_index_data env pv d t)
       end.

(** The records a run of the loop of [remote] updates, in processing order;
    [tk] counts the clock readings taken so far. *)
Fixpoint updated (env : Env) (pkgs : list PackageVersion) (tk : nat)
    : list PackageVersion :=
  match pkgs with
  | [] => []
  | pv :: rest =>
      match step_update env (clock env tk) pv with
      | Some pv' => pv' :: updated env rest (S tk)
      | None => updated env rest tk
      end
  end.

(** The list [remote] loops over. *)
Definition processed (packages : option (list PackageVersion)) (w : World)
    : list PackageVersion :=
  if falsy packages
  then filter (λ pv, is_editable pv = false) (rows (db w))
  else default [] packages.

(** The table after the creation attempt of [create_package_version]. *)
Definition db_after_create (env : Env) (r : Requirement)
    (m : gmap string PackageVersion) : gmap string PackageVersion :=
  let pv := PackageVersion_init env r in
  match m !! package_name pv with
  | Some _ => m
  | None => <[package_name pv := pv]> m
  end.

(** The record the fallback lookup of [local] finds for [r], right after the
    creation attempt for [r]. *)
Definition found_for (env : Env) (r : Requirement)
    (m : gmap string PackageVersion) : option PackageVersion :=
  name_or_uri r ≫= (db_after_create env r m !!.).

(** The records [local] collects from table [m] on. *)
Fixpoint found_records (env : Env) (rs : list Requirement)
    (m : gmap string PackageVersion) : list PackageVersion :=
  match rs with
  | [] => []
  | r :: rest =>
      option_list (found_for env r m)
        ++ found_records env rest (db_after_create env r m)
  end.

(** A record with its query stamp forgotten. *)
Definition forget_checked (pv : PackageVersion) : PackageVersion :=
  {| package_name := package_name pv;
     is_editable := is_editable pv;
     is_parseable := is_parseable pv;
     current_version := current_version pv;
     next_version := next_version pv;
     latest_version := latest_version pv;
     raw := raw pv;
     licence := licence pv;
     python_support := python_support pv;
     supports_py3 := supports_py3 pv;
     diff_status := diff_status pv;
     checked_pypi_at := None;
     url := url pv |}.

(** The store invariant of section 3: a row is filed under its own name, so
    names are unique. *)
Definition store_ok (m : gmap string PackageVersion) : Prop :=
  ∀ k pv, m !! k = Some pv → package_name pv = k.

(** The dict of [remote] after the records of [l] were appended to it, each
    under its status key. *)
Definition group_into (l : list PackageVersion)
    (res : gmap string (list PackageVersion))
    : gmap string (list PackageVersion) :=
  foldl (λ acc pv', dd_append (status_key (diff_status pv')) pv' acc) res l.

(** The table after the records of [l] were saved, in order. *)
Definition store_all (l : list PackageVersion)
    (m : gmap string PackageVersion) : gmap string PackageVersion :=
  foldl (λ acc pv', <[package_name pv' := pv']> acc) m l.

(** What the loop of [remote] writes to the log. *)
Fixpoint loop_log (env : Env) (pkgs : list PackageVersion) (tk : nat)
    : list LogEntry :=
  match pkgs with
  | [] => []
  | pv :: rest =>
      if is_editable pv then
        (DEBUG, MsgSkippingEditable pv) :: loop_log env rest tk
      else match index env (package_name pv) with
           | inl e => (ERROR, MsgUpdateFailed pv e) :: loop_log env rest tk
           | inr d =>
               (DEBUG, MsgUpdated (with_index_data env pv d (clock env tk)))
                 :: loop_log env rest (S tk)
           end
  end.

(** The names [remote] asks the index about, in order. *)
Definition queried (pkgs : list PackageVersion) : list string :=
  package_name <$> filter (λ pv, is_editable pv = false) pkgs.

(** The records of [l] whose status key is [k]. *)
Definition under (k : string) (l : list PackageVersion)
    : list PackageVersion :=
  filter (λ pv', status_key (diff_status pv') = k) l.

(** The table after [local] went through [rs]. *)
Definition local_db (env : Env) (rs : list Requirement)
    (m : gmap string PackageVersion) : gmap string PackageVersion :=
  foldl (λ acc r, db_after_create env r acc) m rs.

(** What one turn of [local] writes to the log. *)
Definition local_step_log (env : Env) (r : Requirement)
    (m : gmap string PackageVersion) : list LogEntry :=
  [(DEBUG, MsgCreating r);
   (INFO, match m !! package_name (PackageVersion_init env r) with
          | Some _ => MsgPackageExists (req_name r)
          | None => MsgPackageAdded (req_name r)
          end)]
  ++ match found_for env r m with
     | Some _ => []
     | None => [(ERROR, MsgSkippingMissing r)]
     end.

Fixpoint local_log (env : Env) (rs : list Requirement)
    (m : gmap string PackageVersion) : list LogEntry :=
  match rs with
  | [] => []
  | r :: rest =>
      local_step_log env r m ++ local_log env rest (db_after_create env r m)
  end.

(** ** The command line: [Command.handle] *)

(** The parsed options of the command, as [add_arguments] declares them. *)
Record Options := mkOptions {
  opt_clean : bool;
  opt_local : bool;
  opt_remote : bool;
  opt_notify : option string;
  opt_from : string;
  opt_subject : string
}.

(** The defaults [add_arguments] gives. *)
Definition default_options : Options :=
  {| opt_clean := false;
     opt_local := false;
     opt_remote := false;
     opt_notify := None;
     opt_from := "Django Package Monitor <packages@example.com>";
     opt_subject := "Package manager update" |}.

(** What [handle] hands to [send_mail]: subject, text body, sender,
    recipients and HTML body. *)
Record Mail := mkMail {
  mail_subject : string;
  mail_message : string;
  mail_from : string;
  mail_to : list string;
  mail_html : string
}.

(** Truth value of [options['notify']]: an address that is not empty. *)
Definition str_truthy (o : option string) : bool :=
  match o with
  | Some s => bool_decide (s ≠ "")
  | None => false
  end.

Section Command.
Context (env : Env).

(** [render_to_string(t, results)], the [render] lambda of [handle]. *)
Definition render (t : string) (results : gmap string ResultValue)
    : M string := λ w,
  match render_to_string env t results with
  | inl e => (Raise e, w)
  | inr text => (Ok text, w)
  end.

(** [Command.handle], on the requirements of REQUIREMENTS_FILE.
    The value is the message handed to [send_mail], if any; the delivery
    itself, which may fail, is outside.  The arguments of [send_mail] are
    evaluated in order: the text body is rendered before the HTML one. *)
Definition handle (options : Options) (requirements : list Requirement)
    : M (option Mail) :=
  (if opt_clean options then clean else mret ());;
  packages ← (if opt_local options then local env requirements
              else mret []);
  if opt_remote options then
    results ← remote env (Some packages);
    if str_truthy (opt_notify options) then
      message ← render "summary.txt" results;
      html_message ← render "summary.html" results;
      mret (Some {| mail_subject := opt_subject options;
                    mail_message := message;
                    mail_from := opt_from options;
                    mail_to := option_list (opt_notify options);
                    mail_html := html_message |})
    else mret None
  else mret None.

End Command.

(** ** admin.py, the display helpers *)

(** ["".join(items)]. *)
Definition join (items : list string) : string :=
  foldr String.append "" items.

(** The inner [as_li] of [html_list]. *)
Definition as_li (val : string) : string :=
  "<li>" +:+ val +:+ "</li>".

(** [html_list(data)]; [mark_safe] leaves the characters as they are. *)
Definition html_list (data : option (list string)) : string :=
  match data with
  | None => ""
  | Some l => "<ul>" +:+ join (as_li <$> l) +:+ "</ul>"
  end.

(** [PackageVersionAdmin._updateable(obj)]. *)
Definition _updateable (obj : PackageVersion) : option bool :=
  if bool_decide (latest_version obj = None) || is_editable obj then None
  else Some (bool_decide (latest_version obj ≠ current_version obj)).

(** [v > obj.current_version] over the versions: nothing is compared when
    there is no version; a comparison with [None] raises TypeError, as
    Python 3 does for a class that does not order itself against [None]. *)
Definition newer_versions (current : option Version)
    (versions : list Version) : Exception + list Version :=
  match versions, current with
  | [], _ => inr []
  | _, None => inl TypeError
  | _, Some c => inr (filter (λ v, version_ltb c v = true) versions)
  end.

Section Admin.
Context (env : Env).

(** [PackageVersionAdmin.available_updates(obj)].  Modelled from the spec:
    [pypi.Package(name).all_versions()] (pypi.py is absent) is one query of
    the Index Client, answering the published versions that parse. *)
Definition available_updates (obj : PackageVersion) : M string :=
  d ← query_index env (package_name obj);
  match newer_versions (current_version obj) (parsed_versions env d) with
  | inl e => raise e
  | inr newer => mret (html_list (Some (version_str env <$> newer)))
  end.

End Admin.

(** ** Derived descriptions, continued *)

(** What [handle] ends with once its [remote] step returned [results]. *)
Definition handle_outcome (env : Env) (o : Options)
    (results : gmap string ResultValue) : Result (option Mail) :=
  if str_truthy (opt_notify o) then
    match render_to_string env "summary.txt" results with
    | inl e => Raise e
    | inr message =>
        match render_to_string env "summary.html" results with
        | inl e => Raise e
        | inr html_message =>
            Ok (Some {| mail_subject := opt_subject o;
                        mail_message := message;
                        mail_from := opt_from o;
                        mail_to := option_list (opt_notify o);
                        mail_html := html_message |})
        end
    end
  else Ok None.


(** The dict [remote] returns, in closed form. *)
Definition remote_results (env : Env)
    (packages : option (list PackageVersion)) (w : World)
    : gmap string ResultValue :=
  let u := updated env (processed packages w) (ticks w) in
  <["refreshed_at" := Time (clock env (ticks w + length u))]>
    (Records <$> group_into u ∅).

(** The log line one turn of [remote] writes for [pv]. *)
Definition remote_line (env : Env) (pv : PackageVersion) (e : LogEntry)
    : Prop :=
  (is_editable pv = true ∧ e = (DEBUG, MsgSkippingEditable pv)) ∨
  (is_editable pv = false ∧
   ∃ err, index env (package_name pv) = inl err ∧
          e = (ERROR, MsgUpdateFailed pv err)) ∨
  (is_editable pv = false ∧
   ∃ d t, index env (package_name pv) = inr d ∧
          e = (DEBUG, MsgUpdated (with_index_data env pv d t))).

(** A record whose turn in [check_pypi] goes through. *)
Definition passes (env : Env) (p : PackageVersion) : Prop :=
  is_editable p = true ∨ ∃ d, index env (package_name p) = inr d.

(** What [check_pypi] writes to the log for the records of [qs]. *)
Definition admin_log (qs : list PackageVersion) : list LogEntry :=
  (λ p, (DEBUG, MsgIgnoringEditable (package_name p)))
    <$> filter (λ p, is_editable p = true) qs.

(** The world [handle] reaches before its [remote] step, and the list it
    passes to it. *)
Definition after_clean (o : Options) (w : World) : World :=
  if opt_clean o then (clean w).2 else w.

Definition after_local (env : Env) (o : Options) (rs : list Requirement)
    (w : World) : World :=
  if opt_local o then (local env rs (after_clean o w)).2
  else after_clean o w.

Definition handed_over (env : Env) (o : Options) (rs : list Requirement)
    (w : World) : list PackageVersion :=
  if opt_local o then found_records env rs (db (after_clean o w)) else [].

(** ** A concrete environment *)

Module Example.

Definition digit_of (c : ascii) : option nat :=
  let n := nat_of_ascii c in
  if decide (48 ≤ n ≤ 57) then Some (n - 48) else None.

Fixpoint digits (s : string) (acc : nat) : option nat :=
  match s with
  | EmptyString => Some acc
  | String c s' => d ← digit_of c; digits s' (10 * acc + d)
  end.

Definition number (s : string) : option nat :=
  match s with
  | EmptyString => None
  | _ => digits s 0
  end.

(** The text before the first dot, and the text after it. *)
Fixpoint cut_dot (s : string) : string * option string :=
  match s with
  | EmptyString => (EmptyString, None)
  | String c s' =>
      if decide (c = "."%char) then (EmptyString, Some s')
      else let '(a, b) := cut_dot s' in (String c a, b)
  end.

(** Versions of the form [X.Y.Z]. *)
Definition parse (s : string) : option Version :=
  let '(a, r1) := cut_dot s in
  r1 ← r1;
  let '(b, r2) := cut_dot r1 in
  r2 ← r2;
  x ← number a; y ← number b; z ← number r2;
  Some (mkVersion x y z).

Definition requests_data : IndexData :=
  {| idx_versions := ["2.0.0"; "2.1.0"; "not-a-version"; "3.0.0"];
     idx_licence := Some "Apache 2.0";
     idx_python_support := ["Programming Language :: Python :: 3"];
     idx_url := Some "https://pypi.org/project/requests/";
     idx_raw := "{requests}" |}.

Definition django_data : IndexData :=
  {| idx_versions := ["1.8.0"; "1.8.2"];
     idx_licence := Some "BSD";
     idx_python_support := [];
     idx_url := None;
     idx_raw := "{django}" |}.

Definition the_index (name : string) : Exception + IndexData :=
  if decide (name = "requests") then inr requests_data
  else if decide (name = "django") then inr django_data
  else if decide (name = "flaky") then inl IndexUnavailable
  else inl PackageNotFound.

(** Modelled from the spec: the constructor fills a new record from the
    requirement (section 4.5, local reconciliation); an absent name is the
    empty string here. *)
Definition init (r : Requirement) : PackageVersion :=
  let v := if req_editable r then None else req_version r ≫= parse in
  {| package_name := default "" (req_name r);
     is_editable := req_editable r;
     is_parseable := bool_decide (is_Some v);
     current_version := v;
     next_version := None;
     latest_version := None;
     raw := req_line r;
     licence := None;
     python_support := [];
     supports_py3 := false;
     diff_status := Unknown;
     checked_pypi_at := None;
     url := if req_editable r then req_uri r else None |}.

(** [X.Y.Z]. *)
Definition show (v : Version) : string :=
  pretty (major v) +:+ "." +:+ pretty (minor v) +:+ "." +:+ pretty (patch v).

(** A renderer that knows both templates, and one that lacks the HTML
    one. *)
Definition render (t : string) (_ : gmap string ResultValue)
    : Exception + string :=
  inr ("rendered " +:+ t).


Definition env : Env :=
  {| index := the_index;
     clock := λ n, 1000 + n;
     parse_version := parse;
     py3_of := λ l, bool_decide ("Programming Language :: Python :: 3" ∈ l);
     PackageVersion_init := init;
     version_str := show;
     render_to_string := render |}.


Definition pinned (name version : string) : Requirement :=
  {| req_name := Some name; req_uri := None; req_editable := false;
     req_version := Some version;
     req_line := name +:+ "==" +:+ version |}.

Definition editable (name uri : string) : Requirement :=
  {| req_name := Some name; req_uri := Some uri; req_editable := true;
     req_version := None; req_line := "-e " +:+ uri |}.

Definition nameless (uri : string) : Requirement :=
  {| req_name := None; req_uri := Some uri; req_editable := true;
     req_version := None; req_line := "-e " +:+ uri |}.

Definition manifest : list Requirement :=
  [pinned "requests" "2.0.0"; editable "mylib" "git+https://x/mylib";
   pinned "flaky" "0.1.0"; pinned "django" "1.8.2"].

Definition empty_world : World :=
  {| db := ∅; log := []; ticks := 0; index_queries := [] |}.

(** The world after [local] on the manifest. *)
Definition synced : World := (local env manifest empty_world).2.

(** Rows of [synced]. *)
Definition requests_row : PackageVersion := init (pinned "requests" "2.0.0").
Definition flaky_row : PackageVersion := init (pinned "flaky" "0.1.0").
Definition mylib_row : PackageVersion :=
  init (editable "mylib" "git+https://x/mylib").

Definition django_row : PackageVersion := init (pinned "django" "1.8.2").

(** A record whose pinned version does not parse, after a refresh: it has a
    latest version and no current one. *)
Definition unversioned_row : PackageVersion :=
  with_index_data env (init (pinned "requests" "2.0.0rc1")) requests_data
    1000.

(** A batch handed to [remote]: the middle record's query fails. *)
Definition batch : list PackageVersion :=
  [requests_row; flaky_row; django_row].

(** Two requirements without a name, then a pinned one. *)
Definition odd_manifest : list Requirement :=
  [nameless "git+https://x/a"; nameless "git+https://x/b";
   pinned "requests" "2.0.0"].




(** Option sets: --clean --local --remote --notify, --remote alone, and
    --local with a notify address. *)
Definition rebuild : Options :=
  {| opt_clean := true; opt_local := true; opt_remote := true;
     opt_notify := Some "ops@example.com";
     opt_from := opt_from default_options;
     opt_subject := opt_subject default_options |}.

Definition refresh_only : Options :=
  {| opt_clean := false; opt_local := false; opt_remote := true;
     opt_notify := None;
     opt_from := opt_from default_options;
     opt_subject := opt_subject default_options |}.

Definition load_only : Options :=
  {| opt_clean := false; opt_local := true; opt_remote := false;
     opt_notify := Some "ops@example.com";
     opt_from := opt_from default_options;
     opt_subject := opt_subject default_options |}.

(** A selection in the admin whose third record fails, and one that goes
    through. *)
Definition selection : list PackageVersion :=
  [requests_row; mylib_row; flaky_row; django_row].

Definition good_selection : list PackageVersion :=
  [requests_row; mylib_row; django_row].

End Example.

(** Membership in a concrete list, by position. *)
Ltac in_batch i :=
  apply (list_elem_of_lookup_2 _ i); vm_compute; reflexivity.

(** * Properties *)

Section Theory.
Context (env : Env).

Implicit Types (w : World) (pv : PackageVersion) (r : Requirement).
Implicit Types (res : gmap string (list PackageVersion)).

(** ** The three outcomes of one turn of [remote] *)

Lemma remote_step_editable res pv w :
  is_editable pv = true →
  remote_step env res pv w =
    (Ok res,
     mkWorld (db w) (log w ++ [(DEBUG, MsgSkippingEditable pv)]) (ticks w)
       (index_queries w)).
Proof. intros He. unfold remote_step. rewrite He. reflexivity. Qed.

Lemma remote_step_failed res pv w e :
  is_editable pv = false →
  index env (package_name pv) = inl e →
  remote_step env res pv w =
    (Ok res,
     mkWorld (db w) (log w ++ [(ERROR, MsgUpdateFailed pv e)]) (ticks w)
       (index_queries w ++ [package_name pv])).
Proof.
  intros He Hi. unfold remote_step. rewrite He.
  unfold try_except, update_from_pypi, mbind, M_bind, query_index.
  rewrite Hi. reflexivity.
Qed.

Lemma remote_step_updated res pv w d :
  is_editable pv = false →
  index env (package_name pv) = inr d →
  let pv' := with_index_data env pv d (clock env (ticks w)) in
  remote_step env res pv w =
    (Ok (dd_append (status_key (diff_status pv')) pv' res),
     mkWorld (<[package_name pv := pv']> (db w))
       (log w ++ [(DEBUG, MsgUpdated pv')]) (S (ticks w))
       (index_queries w ++ [package_name pv])).
Proof.
  intros He Hi. unfold remote_step. rewrite He.
  unfold try_except, update_from_pypi, mbind, M_bind, query_index.
  rewrite Hi. reflexivity.
Qed.

(** ** The loop of [remote], in closed form *)

Lemma foldM_cons {A B} (f : A → B → M A) b l a w :
  foldM f (b :: l) a w =
    match f a b w with
    | (Ok a', w') => foldM f l a' w'
    | (Raise e, w') => (Raise e, w')
    end.
Proof. reflexivity. Qed.

Lemma remote_loop_run pkgs res w :
  foldM (remote_step env) pkgs res w =
    (Ok (group_into (updated env pkgs (ticks w)) res),
     mkWorld (store_all (updated env pkgs (ticks w)) (db w))
       (log w ++ loop_log env pkgs (ticks w))
       (ticks w + length (updated env pkgs (ticks w)))
       (index_queries w ++ queried pkgs)).
Proof.
  revert res w. induction pkgs as [|pv pkgs IH]; intros res w.
  - destruct w; simpl. unfold queried; simpl.
    rewrite !app_nil_r, Nat.add_0_r. reflexivity.
  - rewrite foldM_cons. unfold queried. simpl. unfold step_update.
    destruct (is_editable pv) eqn:He.
    + rewrite remote_step_editable by done. rewrite IH. simpl.
      rewrite filter_cons_False by congruence.
      rewrite <- app_assoc. reflexivity.
    + rewrite filter_cons_True by done.
      destruct (index env (package_name pv)) as [e|d] eqn:Hi.
      * rewrite (remote_step_failed _ _ _ e) by done. rewrite IH. simpl.
        rewrite <- !app_assoc. reflexivity.
      * rewrite (remote_step_updated _ _ _ d) by done. rewrite IH. simpl.
        rewrite <- !app_assoc, Nat.add_succ_r. reflexivity.
Qed.

Lemma remote_run packages w :
  let pkgs := processed packages w in
  let u := updated env pkgs (ticks w) in
  remote env packages w =
    (Ok (<["refreshed_at" := Time (clock env (ticks w + length u))]>
           (Records <$> group_into u ∅)),
     mkWorld (store_all u (db w))
       (log w ++ (INFO, MsgFetching) :: loop_log env pkgs (ticks w))
       (S (ticks w + length u))
       (index_queries w ++ queried pkgs)).
Proof.
  intros pkgs u. unfold remote, mbind, M_bind. simpl.
  assert (Hp : (if falsy packages then objects_exclude_editable
                else mret (default [] packages))
                 (mkWorld (db w) (log w ++ [(INFO, MsgFetching)]) (ticks w)
                    (index_queries w))
               = (Ok pkgs,
                  mkWorld (db w) (log w ++ [(INFO, MsgFetching)]) (ticks w)
                    (index_queries w))).
  { unfold pkgs, processed. destruct (falsy packages); reflexivity. }
  rewrite Hp, remote_loop_run. simpl.
  rewrite <- app_assoc. reflexivity.
Qed.

(** ** The updated records *)

Lemma with_index_data_name pv d t :
  package_name (with_index_data env pv d t) = package_name pv.
Proof. reflexivity. Qed.

Lemma with_index_data_editable pv d t :
  is_editable (with_index_data env pv d t) = is_editable pv.
Proof. reflexivity. Qed.

Lemma step_update_Some t pv pv' :
  step_update env t pv = Some pv' ↔
  is_editable pv = false ∧
  ∃ d, index env (package_name pv) = inr d ∧ pv' = with_index_data env pv d t.
Proof.
  unfold step_update. destruct (is_editable pv).
  - split; [done | intros [? _]; done].
  - destruct (index env (package_name pv)) as [e|d].
    + split; [done | intros [_ (d & ? & _)]; done].
    + split.
      * intros [= <-]. eauto.
      * intros [_ (d' & [= <-] & ->)]. done.
Qed.

Lemma step_update_None t pv :
  step_update env t pv = None ↔
  is_editable pv = true ∨ ∃ e, index env (package_name pv) = inl e.
Proof.
  unfold step_update. destruct (is_editable pv).
  - split; [by left | done].
  - destruct (index env (package_name pv)) as [e|d].
    + split; [right; eauto | done].
    + split; [done | intros [? | [e ?]]; done].
Qed.

(** Whether a turn updates does not depend on the clock. *)
Lemma step_update_is_Some t t' pv :
  is_Some (step_update env t pv) → is_Some (step_update env t' pv).
Proof.
  intros [pv' (He & d & Hi & _)%step_update_Some].
  exists (with_index_data env pv d t'). apply step_update_Some. eauto.
Qed.

Lemma updated_elem pkgs tk pv' :
  pv' ∈ updated env pkgs tk →
  ∃ pv d n, pv ∈ pkgs ∧ is_editable pv = false ∧
    index env (package_name pv) = inr d ∧
    tk ≤ n < tk + length (updated env pkgs tk) ∧
    pv' = with_index_data env pv d (clock env n).
Proof.
  revert tk. induction pkgs as [|pv pkgs IH]; intros tk; simpl.
  - intros H. by apply elem_of_nil in H.
  - destruct (step_update env (clock env tk) pv) as [u|] eqn:Hs.
    + apply step_update_Some in Hs as (He & d & Hi & ->).
      intros [->|Hin]%elem_of_cons.
      * exists pv, d, tk. simpl. repeat split; [left | done.. | lia | lia].
      * destruct (IH _ Hin) as (pv0 & d0 & n & ? & ? & ? & ? & ->).
        exists pv0, d0, n. simpl. repeat split; [by right | done.. | lia | lia].
    + intros Hin.
      destruct (IH _ Hin) as (pv0 & d0 & n & ? & ? & ? & ? & ->).
      exists pv0, d0, n. repeat split; [by right | done.. | lia | lia].
Qed.

Lemma elem_updated pkgs tk pv d :
  pv ∈ pkgs → is_editable pv = false →
  index env (package_name pv) = inr d →
  ∃ n, tk ≤ n < tk + length (updated env pkgs tk) ∧
    with_index_data env pv d (clock env n) ∈ updated env pkgs tk.
Proof.
  intros Hin He Hi. revert tk.
  induction pkgs as [|pv0 pkgs IH]; intros tk; simpl.
  - by apply elem_of_nil in Hin.
  - apply elem_of_cons in Hin as [<-|Hin].
    + assert (Hs : step_update env (clock env tk) pv
                   = Some (with_index_data env pv d (clock env tk)))
        by (apply step_update_Some; eauto).
      rewrite Hs. exists tk. simpl. split; [lia | left].
    + destruct (step_update env (clock env tk) pv0) as [u|].
      * destruct (IH Hin (S tk)) as (n & ? & ?).
        exists n. simpl. split; [lia | by right].
      * destruct (IH Hin tk) as (n & ? & ?). exists n. split; [lia | done].
Qed.

(** Nothing filed under a name the index fails for, or under an editable
    record's name when no other record of the batch bears it. *)
Lemma updated_name_failed pkgs tk pv' e :
  index env (package_name pv') = inl e → pv' ∉ updated env pkgs tk.
Proof.
  intros Hi (pv & d & n & _ & _ & Hd & _ & ->)%updated_elem.
  rewrite with_index_data_name in Hi. congruence.
Qed.

Lemma updated_not_editable pkgs tk pv' :
  pv' ∈ updated env pkgs tk → is_editable pv' = false.
Proof. intros (pv & d & n & _ & He & _ & _ & ->)%updated_elem. done. Qed.

(** ** Grouping by status *)

Lemma dd_append_lookup key pv res k :
  dd_append key pv res !! k =
    if decide (key = k) then Some (default [] (res !! k) ++ [pv])
    else res !! k.
Proof.
  unfold dd_append. rewrite lookup_insert.
  destruct (decide (key = k)) as [->|]; done.
Qed.

Lemma group_into_lookup l res k :
  group_into l res !! k =
    match under k l with
    | [] => res !! k
    | _ => Some (default [] (res !! k) ++ under k l)
    end.
Proof.
  revert res. induction l as [|x l IH]; intros res; [done|].
  unfold group_into, under in *. simpl. rewrite IH.
  rewrite dd_append_lookup.
  destruct (decide (status_key (diff_status x) = k)) as [Hk|Hk].
  - rewrite filter_cons_True by done. simpl.
    destruct (filter _ l); simpl.
    + done.
    + by rewrite <- app_assoc.
  - by rewrite filter_cons_False by done.
Qed.

Lemma status_key_inj : Inj (=) (=) status_key.
Proof. intros [] []; simpl; done || discriminate. Qed.

Lemma status_key_not_refreshed s : status_key s ≠ "refreshed_at".
Proof. destruct s; discriminate. Qed.

(** ** Saving in order *)

Lemma store_all_lookup l m n :
  store_all l m !! n =
    match last (filter (λ pv', package_name pv' = n) l) with
    | Some pv' => Some pv'
    | None => m !! n
    end.
Proof.
  revert m. induction l as [|x l IH]; intros m; [done|].
  unfold store_all in *. simpl. rewrite IH.
  destruct (decide (package_name x = n)) as [Hn|Hn].
  - rewrite filter_cons_True by done.
    destruct (filter _ l) as [|y l'] eqn:Hf.
    + simpl. rewrite Hn. apply lookup_insert_eq.
    + change (last (x :: y :: l')) with (last (y :: l')).
      destruct (last (y :: l')) eqn:Hl; [done|].
      by apply last_None in Hl.
  - rewrite filter_cons_False by done.
    destruct (last _); [done|]. by apply lookup_insert_ne.
Qed.

Lemma store_all_untouched l m n :
  (∀ pv', pv' ∈ l → package_name pv' ≠ n) → store_all l m !! n = m !! n.
Proof.
  intros Hl. rewrite store_all_lookup.
  destruct (last _) as [pv'|] eqn:Hlast; [|done].
  apply last_Some_elem_of, list_elem_of_filter in Hlast as [? ?].
  by destruct (Hl pv').
Qed.

Lemma store_all_stored l m n :
  (∃ pv', pv' ∈ l ∧ package_name pv' = n) →
  ∃ pv', pv' ∈ l ∧ package_name pv' = n ∧ store_all l m !! n = Some pv'.
Proof.
  intros (pv0 & Hin & Hn). rewrite store_all_lookup.
  destruct (last _) as [pv'|] eqn:Hlast.
  - apply last_Some_elem_of, list_elem_of_filter in Hlast as [? ?]. eauto.
  - apply last_None in Hlast.
    assert (pv0 ∈ filter (λ pv', package_name pv' = n) l)
      by (apply list_elem_of_filter; done).
    rewrite Hlast in *. by apply elem_of_nil in H.
Qed.

Lemma NoDup_fmap_elem_eq {A B} (f : A → B) (l : list A) x y :
  NoDup (f <$> l) → x ∈ l → y ∈ l → f x = f y → x = y.
Proof.
  induction l as [|a l IH]; simpl.
  - intros _ H. by apply elem_of_nil in H.
  - intros [Hna Hnd]%NoDup_cons [->|Hx]%elem_of_cons [->|Hy]%elem_of_cons Hf.
    + done.
    + destruct Hna. rewrite Hf. by apply list_elem_of_fmap_2.
    + destruct Hna. rewrite <- Hf. by apply list_elem_of_fmap_2.
    + by apply IH.
Qed.

Lemma updated_names_sublist pkgs tk :
  sublist (package_name <$> updated env pkgs tk) (package_name <$> pkgs).
Proof.
  revert tk. induction pkgs as [|pv pkgs IH]; intros tk; simpl; [done|].
  destruct (step_update env (clock env tk) pv) as [u|] eqn:Hs.
  - apply step_update_Some in Hs as (_ & d & _ & ->). simpl.
    by apply sublist_skip.
  - by apply sublist_cons.
Qed.

Lemma store_all_NoDup l m pv' :
  NoDup (package_name <$> l) → pv' ∈ l →
  store_all l m !! package_name pv' = Some pv'.
Proof.
  intros Hnd Hin.
  destruct (store_all_stored l m (package_name pv')) as (x & Hx & Hn & ->);
    [by eauto|].
  f_equal. by apply (NoDup_fmap_elem_eq package_name l).
Qed.

Lemma loop_log_failed pkgs tk pv e :
  pv ∈ pkgs → is_editable pv = false →
  index env (package_name pv) = inl e →
  (ERROR, MsgUpdateFailed pv e) ∈ loop_log env pkgs tk.
Proof.
  intros Hin He Hi. revert tk.
  induction pkgs as [|pv0 pkgs IH]; intros tk; simpl.
  - by apply elem_of_nil in Hin.
  - apply elem_of_cons in Hin as [<-|Hin].
    + rewrite He, Hi. left.
    + destruct (is_editable pv0); [right; by apply IH|].
      destruct (index env (package_name pv0)); right; by apply IH.
Qed.

(** ** Remote reconciliation survives failures *)

(** C1. [remote] never raises.  For a record of the batch whose index query
    fails, the stored row of that name is what it was before the run and the
    failure is written to the log at level ERROR; every record of the batch
    whose query succeeds is updated, listed in the result under its status,
    and a row of its name holding an update of the run is stored (its own
    update when the names of the batch are distinct). *)
Theorem remote_survives_failures packages w :
  ∃ results w',
    remote env packages w = (Ok results, w') ∧
    (∀ pv e,
       pv ∈ processed packages w → is_editable pv = false →
       index env (package_name pv) = inl e →
       db w' !! package_name pv = db w !! package_name pv ∧
       (ERROR, MsgUpdateFailed pv e) ∈ log w') ∧
    (∀ pv d,
       pv ∈ processed packages w → is_editable pv = false →
       index env (package_name pv) = inr d →
       ∃ n, ticks w ≤ n < ticks w' ∧
         let pv' := with_index_data env pv d (clock env n) in
         (∃ l, results !! status_key (diff_status pv') = Some (Records l)
               ∧ pv' ∈ l) ∧
         (∃ pv2 n2,
            pv2 ∈ processed packages w ∧
            package_name pv2 = package_name pv ∧
            db w' !! package_name pv
              = Some (with_index_data env pv2 d (clock env n2))) ∧
         (NoDup (package_name <$> processed packages w) →
          db w' !! package_name pv = Some pv')).
Proof.
  eexists _, _. split; [apply remote_run|]. simpl.
  set (pkgs := processed packages w).
  set (u := updated env pkgs (ticks w)).
  split.
  - intros pv e Hin He Hi. split.
    + apply store_all_untouched. intros pv' Hu Hn.
      apply (updated_name_failed pkgs (ticks w) pv' e); [|done].
      by rewrite Hn.
    + apply elem_of_app. right. right. by apply loop_log_failed.
  - intros pv d Hin He Hi.
    destruct (elem_updated pkgs (ticks w) pv d Hin He Hi) as (n & Hn & Hu).
    fold u in Hn, Hu. exists n. split; [lia|]. simpl.
    split; [|split].
    + rewrite lookup_insert_ne by (symmetry; apply status_key_not_refreshed).
      rewrite lookup_fmap, group_into_lookup, lookup_empty. simpl.
      set (pv' := with_index_data env pv d (clock env n)) in *.
      assert (Hin' : pv' ∈ under (status_key (diff_status pv')) u)
        by (apply list_elem_of_filter; done).
      destruct (under _ u) as [|x l'] eqn:Hun.
      * by apply elem_of_nil in Hin'.
      * simpl. eauto.
    + destruct (store_all_stored u (db w) (package_name pv))
        as (x & Hx & Hxn & Hst); [by eauto|].
      apply updated_elem in Hx as (pv2 & d2 & n2 & ? & ? & Hd2 & ? & ->).
      rewrite with_index_data_name in Hxn. rewrite Hxn in Hd2.
      assert (d2 = d) as -> by congruence.
      exists pv2, n2. done.
    + intros Hnd.
      rewrite <- (with_index_data_name pv d (clock env n)).
      apply store_all_NoDup; [|done].
      eapply sublist_NoDup; [done | apply updated_names_sublist].
Qed.

(** ** The loop of [local], in closed form *)

Lemma create_package_version_run r w :
  create_package_version env r w =
    (Ok None,
     mkWorld (db_after_create env r (db w))
       (log w ++
        [(INFO, match db w !! package_name (PackageVersion_init env r) with
                | Some _ => MsgPackageExists (req_name r)
                | None => MsgPackageAdded (req_name r)
                end)])
       (ticks w) (index_queries w)).
Proof.
  unfold create_package_version, try_except, mbind, M_bind, save_new,
    db_after_create.
  destruct (db w !! package_name (PackageVersion_init env r));
    simpl; reflexivity.
Qed.

Lemma local_step_run packages r w :
  local_step env packages r w =
    (Ok (packages ++ option_list (found_for env r (db w))),
     mkWorld (db_after_create env r (db w))
       (log w ++ local_step_log env r (db w))
       (ticks w) (index_queries w)).
Proof.
  unfold local_step, mbind at 1 2, M_bind. simpl.
  rewrite create_package_version_run. simpl.
  unfold local_step_log, found_for, try_except, objects_get, mbind at 1 2,
    M_bind. simpl.
  destruct (name_or_uri r ≫= _) as [pv|]; simpl.
  - rewrite <- !app_assoc. reflexivity.
  - rewrite app_nil_r, <- !app_assoc. reflexivity.
Qed.

Lemma local_loop_run rs packages w :
  foldM (local_step env) rs packages w =
    (Ok (packages ++ found_records env rs (db w)),
     mkWorld (local_db env rs (db w)) (log w ++ local_log env rs (db w))
       (ticks w) (index_queries w)).
Proof.
  revert packages w. induction rs as [|r rs IH]; intros packages w.
  - destruct w; simpl. rewrite !app_nil_r. reflexivity.
  - rewrite foldM_cons, local_step_run, IH. simpl.
    rewrite <- !app_assoc. reflexivity.
Qed.

Lemma local_run rs w :
  local env rs w =
    (Ok (found_records env rs (db w)),
     mkWorld (local_db env rs (db w))
       (log w ++ (INFO, MsgLoadingLocal) :: local_log env rs (db w))
       (ticks w) (index_queries w)).
Proof.
  unfold local, mbind, M_bind. simpl. rewrite local_loop_run. simpl.
  rewrite <- app_assoc. reflexivity.
Qed.

(** The table only grows: a row that is there stays as it is. *)
Lemma db_after_create_keeps r m k pv :
  m !! k = Some pv → db_after_create env r m !! k = Some pv.
Proof.
  intros Hk. unfold db_after_create.
  destruct (m !! package_name (PackageVersion_init env r)) eqn:Hn; [done|].
  rewrite lookup_insert_ne; [done|]. intros <-. congruence.
Qed.

Lemma local_db_keeps rs m k pv :
  m !! k = Some pv → local_db env rs m !! k = Some pv.
Proof.
  revert m. induction rs as [|r rs IH]; intros m Hk; [done|].
  apply IH. by apply db_after_create_keeps.
Qed.

Lemma local_db_app rs1 rs2 m :
  local_db env (rs1 ++ rs2) m = local_db env rs2 (local_db env rs1 m).
Proof. unfold local_db. apply foldl_app. Qed.

Lemma found_records_app rs1 rs2 m :
  found_records env (rs1 ++ rs2) m =
    found_records env rs1 m ++ found_records env rs2 (local_db env rs1 m).
Proof.
  revert m. induction rs1 as [|r rs1 IH]; intros m; simpl; [done|].
  rewrite IH, <- app_assoc. reflexivity.
Qed.

Lemma local_log_app rs1 rs2 m :
  local_log env (rs1 ++ rs2) m =
    local_log env rs1 m ++ local_log env rs2 (local_db env rs1 m).
Proof.
  revert m. induction rs1 as [|r rs1 IH]; intros m; simpl; [done|].
  rewrite IH, <- app_assoc. reflexivity.
Qed.

Lemma local_log_cons r rs m :
  local_log env (r :: rs) m =
    local_step_log env r m ++ local_log env rs (db_after_create env r m).
Proof. reflexivity. Qed.

Lemma local_log_at a r b m :
  local_step_log env r (local_db env a m) ⊆ local_log env (a ++ r :: b) m.
Proof.
  intros x Hx. rewrite local_log_app, local_log_cons.
  apply elem_of_app. right. apply elem_of_app. by left.
Qed.

Lemma found_for_Some r m pv :
  found_for env r m = Some pv ↔
  ∃ key, name_or_uri r = Some key ∧ db_after_create env r m !! key = Some pv.
Proof.
  unfold found_for. destruct (name_or_uri r) as [key|]; simpl.
  - split; [eauto | by intros (? & [= <-] & ?)].
  - split; [done | by intros (? & ? & _)].
Qed.

(** A collected record is the row that its requirement's name (or uri)
    selects, then and at the end of the pass. *)
Lemma found_records_elem rs m pv :
  pv ∈ found_records env rs m →
  ∃ r key, r ∈ rs ∧ name_or_uri r = Some key ∧
    local_db env rs m !! key = Some pv.
Proof.
  revert m. induction rs as [|r rs IH]; intros m; simpl.
  - intros H. by apply elem_of_nil in H.
  - intros [Hin|Hin]%elem_of_app.
    + destruct (found_for env r m) as [x|] eqn:Hf; simpl in Hin.
      * apply list_elem_of_singleton in Hin as ->.
        apply found_for_Some in Hf as (key & Hk & Hl).
        exists r, key. split; [left | split; [done|]].
        by apply local_db_keeps.
      * by apply elem_of_nil in Hin.
    + destruct (IH _ Hin) as (r' & key & ? & ? & ?).
      exists r', key. split; [by right | done].
Qed.

Lemma found_records_length rs m :
  length (found_records env rs m) ≤ length rs.
Proof.
  revert m. induction rs as [|r rs IH]; intros m; simpl; [done|].
  rewrite length_app. specialize (IH (db_after_create env r m)).
  destruct (found_for env r m); simpl; lia.
Qed.

Lemma found_for_existing r m key pv :
  name_or_uri r = Some key → m !! key = Some pv →
  found_for env r m = Some pv.
Proof.
  intros Hk Hm. apply found_for_Some. exists key.
  split; [done | by apply db_after_create_keeps].
Qed.

(** A requirement that the constructor files under the very name [local]
    looks it up by always has its record, created or found. *)
Lemma found_for_own_name r m :
  name_or_uri r = Some (package_name (PackageVersion_init env r)) →
  is_Some (found_for env r m).
Proof.
  intros Hk. unfold found_for, db_after_create. rewrite Hk. simpl.
  destruct (m !! package_name (PackageVersion_init env r)) as [pv|] eqn:Hm.
  - rewrite Hm. eauto.
  - rewrite lookup_insert_eq. eauto.
Qed.

Lemma db_after_create_taken r m :
  is_Some (m !! package_name (PackageVersion_init env r)) →
  db_after_create env r m = m.
Proof. intros [pv Hpv]. unfold db_after_create. by rewrite Hpv. Qed.

(** ** Local reconciliation *)

(** C5. [local] never raises and changes no row that is already stored.
    For a requirement whose record's name is taken, the IntegrityError of
    the creation is absorbed with the 'already exists' message; for a
    requirement whose name (or uri) has a stored row, that very row is
    looked up and is in the returned list. *)
Theorem local_keeps_existing rs w :
  ∃ pkgs w',
    local env rs w = (Ok pkgs, w') ∧
    (∀ k pv, db w !! k = Some pv → db w' !! k = Some pv) ∧
    (∀ r pv,
       r ∈ rs →
       db w !! package_name (PackageVersion_init env r) = Some pv →
       (INFO, MsgPackageExists (req_name r)) ∈ log w') ∧
    (∀ r key pv,
       r ∈ rs → name_or_uri r = Some key → db w !! key = Some pv →
       pv ∈ pkgs ∧ db w' !! key = Some pv).
Proof.
  eexists _, _. split; [apply local_run|]. simpl. split; [|split].
  - intros k pv. apply local_db_keeps.
  - intros r pv (a & b & ->)%list_elem_of_split Hn.
    apply elem_of_app. right. right. apply (local_log_at a r b).
    unfold local_step_log. rewrite (local_db_keeps a _ _ _ Hn).
    apply elem_of_app. left. right. left.
  - intros r key pv (a & b & ->)%list_elem_of_split Hk Hm. split.
    + rewrite found_records_app. apply elem_of_app. right. simpl.
      apply elem_of_app. left.
      rewrite (found_for_existing r _ key pv); [left | done |].
      by apply local_db_keeps.
    + by apply local_db_keeps.
Qed.

(** C6. [local] never raises; its list holds, in manifest order, for each
    requirement the record its name lookup finds at its turn, and nothing
    for a requirement whose lookup finds none.  Every returned record is a
    row of the table after the pass.  A requirement filed under its own
    lookup name always yields its record (created or found).  A requirement
    with no record at its turn is reported at level ERROR, adds nothing to
    the list, and, when its creation failed, leaves the table as it was. *)
Theorem local_collects_found rs w :
  ∃ pkgs w',
    local env rs w = (Ok pkgs, w') ∧
    pkgs = found_records env rs (db w) ∧
    length pkgs ≤ length rs ∧
    (∀ pv, pv ∈ pkgs →
       ∃ r key, r ∈ rs ∧ name_or_uri r = Some key ∧ db w' !! key = Some pv) ∧
    (∀ before r after,
       rs = before ++ r :: after →
       let m := local_db env before (db w) in
       pkgs = found_records env before (db w)
                ++ option_list (found_for env r m)
                ++ found_records env after (db_after_create env r m)) ∧
    (∀ before r after,
       rs = before ++ r :: after →
       name_or_uri r = Some (package_name (PackageVersion_init env r)) →
       is_Some (found_for env r (local_db env before (db w)))) ∧
    (∀ before r after,
       rs = before ++ r :: after →
       let m := local_db env before (db w) in
       found_for env r m = None →
       (ERROR, MsgSkippingMissing r) ∈ log w' ∧
       pkgs = found_records env before (db w)
                ++ found_records env after (db_after_create env r m) ∧
       (is_Some (m !! package_name (PackageVersion_init env r)) →
        db_after_create env r m = m)).
Proof.
  eexists _, _. split; [apply local_run|]. simpl.
  split; [done|]. split; [apply found_records_length|].
  split; [apply found_records_elem|]. split; [|split].
  - intros before r after ->. by rewrite found_records_app.
  - intros before r after _. apply found_for_own_name.
  - intros before r after -> Hnone. split; [|split].
    + apply elem_of_app. right. right. apply (local_log_at before r after).
      unfold local_step_log. rewrite Hnone.
      apply elem_of_app. right. left.
    + rewrite found_records_app. simpl. by rewrite Hnone.
    + apply db_after_create_taken.
Qed.







(** ** The default batch of [remote] *)

Lemma elem_of_rows (m : gmap string PackageVersion) pv :
  pv ∈ rows m ↔ ∃ k, m !! k = Some pv.
Proof.
  unfold rows. rewrite list_elem_of_fmap. split.
  - intros ([k x] & -> & Hin). exists k. by apply elem_of_map_to_list.
  - intros [k Hk]. exists (k, pv). split; [done|].
    by apply elem_of_map_to_list.
Qed.

Lemma queried_non_editable pkgs :
  queried (filter (λ pv, is_editable pv = false) pkgs)
    = package_name <$> filter (λ pv, is_editable pv = false) pkgs.
Proof.
  unfold queried. f_equal. induction pkgs as [|pv pkgs IH]; [done|].
  destruct (decide (is_editable pv = false)) as [He|He].
  - rewrite !filter_cons_True by done. by rewrite IH.
  - by rewrite !filter_cons_False by done.
Qed.

Lemma processed_falsy packages w :
  falsy packages = true →
  processed packages w = filter (λ pv, is_editable pv = false) (rows (db w)).
Proof. intros Hf. unfold processed. by rewrite Hf. Qed.

(** C7. Called with no records ([None], or an empty list, which Python
    treats alike), [remote] loops over the stored rows that are not editable:
    a record is in the batch exactly when it is a stored row with
    [is_editable] false, the command is its loop over that batch, and the
    index is asked about those records and nothing else. *)
Theorem remote_default_is_non_editable packages w :
  falsy packages = true →
  let pkgs := filter (λ pv, is_editable pv = false) (rows (db w)) in
  (∀ pv, pv ∈ pkgs ↔ (∃ k, db w !! k = Some pv) ∧ is_editable pv = false) ∧
  remote env packages w =
    (logger INFO MsgFetching;;
     results ← foldM (remote_step env) pkgs ∅;
     t ← tz_now env;
     mret (<["refreshed_at" := Time t]> (Records <$> results))
       : M (gmap string ResultValue)) w ∧
  ∃ results w',
    remote env packages w = (Ok results, w') ∧
    index_queries w' = index_queries w ++ (package_name <$> pkgs).
Proof.
  intros Hf pkgs. split; [|split].
  - intros pv. unfold pkgs. rewrite list_elem_of_filter, elem_of_rows. tauto.
  - unfold remote. rewrite Hf. reflexivity.
  - eexists _, _. split; [apply remote_run|]. simpl.
    rewrite processed_falsy by done. fold pkgs.
    unfold pkgs. by rewrite queried_non_editable.
Qed.

(** ** Reset *)

(** C8. [clean] never raises and empties the table whatever it held: no row
    is listed afterwards, no name is found, and the deletion is logged. *)
Theorem clean_deletes_all w :
  ∃ w',
    clean w = (Ok (), w') ∧
    db w' = ∅ ∧
    rows (db w') = [] ∧
    (∀ name, objects_get name w' = (Raise DoesNotExist, w')) ∧
    log w' = log w ++ [(INFO, MsgDeletedAll)].
Proof.
  eexists. split; [reflexivity|]. simpl. split; [done|].
  split; [done|]. split; [|done].
  intros [name|]; unfold objects_get; simpl; [|done].
  by rewrite lookup_empty.
Qed.

(** ** The 'Update available' filter of the admin *)

(** C9. The value '-1' selects the records with no latest version and only
    those; a record with a latest version and no current version is selected
    by none of the three values the filter offers. *)
Theorem update_filter_misses_unversioned :
  (∀ qs, queryset (Some "-1") qs = filter (λ pv, latest_version pv = None) qs)
  ∧
  (∀ qs pv v,
     current_version pv = None → latest_version pv ≠ None →
     v ∈ lookups.*1 → pv ∉ queryset (Some v) qs).
Proof.
  split; [done|].
  intros qs pv v Hc Hl Hv.
  assert (v = "1" ∨ v = "0" ∨ v = "-1") as [-> | [-> | ->]].
  { unfold lookups in Hv. simpl in Hv.
    repeat (apply elem_of_cons in Hv as [->|Hv]); auto.
    by apply elem_of_nil in Hv. }
  - unfold queryset. rewrite !decide_False by discriminate.
    rewrite decide_True by done.
    intros [_ [[Hcur _] _]%list_elem_of_filter]%list_elem_of_filter. done.
  - unfold queryset. rewrite decide_False by discriminate.
    rewrite decide_True by done.
    intros [[Hcur _] _]%list_elem_of_filter. done.
  - unfold queryset. rewrite decide_True by done.
    intros [Hnone _]%list_elem_of_filter. done.
Qed.

(** ** The result mapping of [remote] *)

Lemma under_status_key s l :
  under (status_key s) l = filter (λ pv', diff_status pv' = s) l.
Proof.
  unfold under. induction l as [|x l IH]; [done|].
  destruct (decide (diff_status x = s)) as [Hs|Hs].
  - rewrite !filter_cons_True by (done || by rewrite Hs). by rewrite IH.
  - rewrite !filter_cons_False; [done | done |].
    intros Hk. by apply status_key_inj in Hk.
Qed.

Lemma under_other k l :
  (∀ s, k ≠ status_key s) → under k l = [].
Proof.
  intros Hk. unfold under. induction l as [|x l IH]; [done|].
  rewrite filter_cons_False; [done|]. intros Hx. by destruct (Hk (diff_status x)).
Qed.

Lemma updated_length pkgs tk :
  length (updated env pkgs tk)
    = length (filter (λ pv, is_Some (step_update env 0 pv)) pkgs).
Proof.
  revert tk. induction pkgs as [|pv pkgs IH]; intros tk; simpl; [done|].
  destruct (step_update env (clock env tk) pv) as [u|] eqn:Hs.
  - rewrite filter_cons_True
      by (apply (step_update_is_Some (clock env tk)); eauto).
    simpl. by rewrite IH.
  - rewrite filter_cons_False; [by apply IH|].
    intros Hsome%(step_update_is_Some 0 (clock env tk)).
    rewrite Hs in Hsome. by destruct Hsome.
Qed.

(** C4. [remote] returns a dict with the key 'refreshed_at', bound to the
    clock reading taken after the loop (the last of the run), and with a key
    for each status under which some record was filed, bound to the records
    that were updated in the run and came out with that status, in
    processing order; it has no other key.  The updated records are one per
    non-editable record of the batch whose query succeeded; a record whose
    query failed, and an editable one, is in no list. *)
Theorem remote_result_mapping packages w :
  ∃ results w',
    remote env packages w = (Ok results, w') ∧
    let pkgs := processed packages w in
    let u := updated env pkgs (ticks w) in
    ticks w' = S (ticks w + length u) ∧
    results !! "refreshed_at" = Some (Time (clock env (ticks w + length u))) ∧
    (∀ s, results !! status_key s =
            match filter (λ pv', diff_status pv' = s) u with
            | [] => None
            | l => Some (Records l)
            end) ∧
    (∀ k, k ≠ "refreshed_at" → (∀ s, k ≠ status_key s) →
          results !! k = None) ∧
    length u = length (filter (λ pv, is_Some (step_update env 0 pv)) pkgs) ∧
    (∀ pv d, pv ∈ pkgs → is_editable pv = false →
       index env (package_name pv) = inr d →
       ∃ n, ticks w ≤ n < ticks w + length u ∧
         with_index_data env pv d (clock env n) ∈ u) ∧
    (∀ pv', pv' ∈ u →
       is_editable pv' = false ∧
       ∃ pv d n, pv ∈ pkgs ∧ is_editable pv = false ∧
         index env (package_name pv) = inr d ∧
         pv' = with_index_data env pv d (clock env n)) ∧
    (∀ s l pv', results !! status_key s = Some (Records l) → pv' ∈ l →
       diff_status pv' = s ∧ is_editable pv' = false ∧
       ∃ d, index env (package_name pv') = inr d).
Proof.
  eexists _, _. split; [apply remote_run|]. simpl.
  set (pkgs := processed packages w).
  set (u := updated env pkgs (ticks w)).
  assert (Hstatus : ∀ s,
    (<["refreshed_at" := Time (clock env (ticks w + length u))]>
       (Records <$> group_into u ∅) : gmap string ResultValue)
      !! status_key s =
    match filter (λ pv', diff_status pv' = s) u with
    | [] => None
    | l => Some (Records l)
    end).
  { intros s.
    rewrite lookup_insert_ne by (symmetry; apply status_key_not_refreshed).
    rewrite lookup_fmap, group_into_lookup, lookup_empty, under_status_key.
    by destruct (filter _ u). }
  split; [done|]. split; [apply lookup_insert_eq|].
  split; [done|]. split; [|split; [|split; [|split]]].
  - intros k Hk Hs. rewrite lookup_insert_ne by done.
    rewrite lookup_fmap, group_into_lookup, under_other by done.
    by rewrite lookup_empty.
  - apply updated_length.
  - intros pv d. apply elem_updated.
  - intros pv' Hu. split; [by eapply updated_not_editable|].
    apply updated_elem in Hu as (pv & d & n & ? & ? & ? & ? & ->). eauto 10.
  - intros s l pv' Hl Hin. rewrite Hstatus in Hl.
    assert (Hin' : pv' ∈ filter (λ pv', diff_status pv' = s) u).
    { destruct (filter _ u); [done|]. by injection Hl as <-. }
    apply list_elem_of_filter in Hin' as [Hs Hu]. split; [done|].
    split; [by eapply updated_not_editable|].
    apply updated_elem in Hu as (pv & d & n & ? & ? & ? & ? & ->). eauto.
Qed.

(** ** Editable records are left alone *)





(** The three outcomes of one turn of [check_pypi]. *)
Lemma check_pypi_step_editable p w :
  is_editable p = true →
  check_pypi_step env () p w =
    (Ok (),
     mkWorld (db w) (log w ++ [(DEBUG, MsgIgnoringEditable (package_name p))])
       (ticks w) (index_queries w)).
Proof. intros He. unfold check_pypi_step. rewrite He. reflexivity. Qed.

Lemma check_pypi_step_failed p w e :
  is_editable p = false → index env (package_name p) = inl e →
  check_pypi_step env () p w =
    (Raise e,
     mkWorld (db w) (log w) (ticks w) (index_queries w ++ [package_name p])).
Proof.
  intros He Hi. unfold check_pypi_step. rewrite He.
  unfold update_from_pypi, mbind, M_bind, query_index.
  rewrite Hi. reflexivity.
Qed.

Lemma check_pypi_step_updated p w d :
  is_editable p = false → index env (package_name p) = inr d →
  check_pypi_step env () p w =
    (Ok (),
     mkWorld
       (<[package_name p := with_index_data env p d (clock env (ticks w))]>
          (db w))
       (log w) (S (ticks w)) (index_queries w ++ [package_name p])).
Proof.
  intros He Hi. unfold check_pypi_step. rewrite He.
  unfold update_from_pypi, mbind, M_bind, query_index.
  rewrite Hi. reflexivity.
Qed.




(** ** Running [remote] twice *)

Lemma store_ok_empty : store_ok ∅.
Proof. intros k pv Hk. by rewrite lookup_empty in Hk. Qed.

Lemma store_ok_insert m pv :
  store_ok m → store_ok (<[package_name pv := pv]> m).
Proof.
  intros Hok k x. rewrite lookup_insert. case_decide as Hk.
  - intros [= <-]. done.
  - apply Hok.
Qed.

Lemma store_ok_store_all l m : store_ok m → store_ok (store_all l m).
Proof.
  revert m. induction l as [|x l IH]; intros m Hok; [done|].
  apply IH. by apply store_ok_insert.
Qed.

Lemma store_ok_local_db rs m : store_ok m → store_ok (local_db env rs m).
Proof.
  revert m. induction rs as [|r rs IH]; intros m Hok; [done|].
  apply IH. unfold db_after_create.
  destruct (m !! _); [done | by apply store_ok_insert].
Qed.

Lemma store_ok_local rs w :
  store_ok (db w) → store_ok (db (local env rs w).2).
Proof. intros Hok. rewrite local_run. by apply store_ok_local_db. Qed.

Lemma remote_db packages w :
  db (remote env packages w).2
    = store_all (updated env (processed packages w) (ticks w)) (db w).
Proof. by rewrite remote_run. Qed.

(** A refreshed record refreshed again differs in its stamp only. *)
Lemma forget_refresh_again pv d t t' :
  forget_checked (with_index_data env (with_index_data env pv d t) d t')
    = forget_checked (with_index_data env pv d t).
Proof. reflexivity. Qed.

Lemma forget_updated pkgs tk tk' :
  forget_checked <$> updated env pkgs tk
    = forget_checked <$> updated env pkgs tk'.
Proof.
  revert tk tk'. induction pkgs as [|pv pkgs IH]; intros tk tk'; [done|].
  simpl. unfold step_update. destruct (is_editable pv); [apply IH|].
  destruct (index env (package_name pv)) as [e|d]; [apply IH|].
  simpl. f_equal. apply IH.
Qed.

Lemma store_all_forget l m :
  forget_checked <$> store_all l m
    = store_all (forget_checked <$> l) (forget_checked <$> m).
Proof.
  revert m. induction l as [|x l IH]; intros m; [done|].
  unfold store_all in *. simpl. rewrite IH. f_equal.
  by rewrite fmap_insert.
Qed.

Lemma store_all_idem l (m : gmap string PackageVersion) :
  store_all l (store_all l m) = store_all l m.
Proof.
  apply map_eq. intros n. rewrite (store_all_lookup l (store_all l m)).
  destruct (last _) as [x|] eqn:Hl; [|done].
  by rewrite store_all_lookup, Hl.
Qed.

(** In a well-formed table, a row the default batch refreshes in a second
    run is a row the first run refreshed. *)
Lemma default_rerun_row packages w q d :
  falsy packages = true → store_ok (db w) →
  q ∈ processed packages (remote env packages w).2 →
  index env (package_name q) = inr d →
  db (remote env packages w).2 !! package_name q = Some q ∧
  ∃ q0 t0, q = with_index_data env q0 d t0.
Proof.
  intros Hf Hok Hq Hd.
  rewrite processed_falsy in Hq by done.
  apply list_elem_of_filter in Hq as [He [k Hk]%elem_of_rows].
  assert (Hok1 : store_ok (db (remote env packages w).2))
    by (rewrite remote_db; by apply store_ok_store_all).
  pose proof (Hok1 _ _ Hk) as <-. split; [done|].
  rewrite remote_db, store_all_lookup in Hk.
  destruct (last _) as [x|] eqn:Hl.
  - injection Hk as ->.
    apply last_Some_elem_of, list_elem_of_filter in Hl as [_ Hu].
    apply updated_elem in Hu as (q0 & d0 & n & _ & _ & Hd0 & _ & ->).
    rewrite with_index_data_name in Hd.
    assert (d0 = d) as -> by congruence. eauto.
  - exfalso. apply last_None in Hl.
    assert (Hq : q ∈ processed packages w).
    { rewrite processed_falsy by done.
      apply list_elem_of_filter. split; [done|]. apply elem_of_rows. eauto. }
    destruct (elem_updated _ (ticks w) q d Hq He Hd) as (n & _ & Hu).
    assert (Hin : with_index_data env q d (clock env n)
                    ∈ filter (λ pv', package_name pv' = package_name q)
                        (updated env (processed packages w) (ticks w)))
      by (apply list_elem_of_filter; done).
    rewrite Hl in Hin. by apply elem_of_nil in Hin.
Qed.

Lemma remote_ticks packages w :
  ticks (remote env packages w).2
    = S (ticks w + length (updated env (processed packages w) (ticks w))).
Proof. by rewrite remote_run. Qed.

(** C3, as amended.  Over a well-formed table, a second run of [remote] on
    the same argument (the default batch read again, or the same records
    passed again) and the same index leaves every row as the first run left
    it in every field but [checked_pypi_at].  A row for whose name the
    second batch has no record to refresh is left exactly as it was; a row
    the second run refreshes carries, as [checked_pypi_at], a clock reading
    taken during the second run. *)
Theorem remote_twice_same_but_stamp packages w :
  store_ok (db w) →
  let w1 := (remote env packages w).2 in
  let w2 := (remote env packages w1).2 in
  forget_checked <$> db w2 = forget_checked <$> db w1 ∧
  (∀ k,
     (∀ p, p ∈ processed packages w1 → package_name p = k →
        is_editable p = true ∨ ∃ e, index env (package_name p) = inl e) →
     db w2 !! k = db w1 !! k) ∧
  (∀ p d,
     p ∈ processed packages w1 → is_editable p = false →
     index env (package_name p) = inr d →
     ∃ pv2 n,
       db w2 !! package_name p = Some pv2 ∧
       checked_pypi_at pv2 = Some (clock env n) ∧
       ticks w1 ≤ n < ticks w2).
Proof.
  intros Hok w1 w2. split; [|split].
  - unfold w2. rewrite remote_db.
    destruct (falsy packages) eqn:Hf.
    + apply map_eq. intros n. rewrite !lookup_fmap, store_all_lookup.
      destruct (last _) as [x|] eqn:Hl; [|done].
      apply last_Some_elem_of, list_elem_of_filter in Hl as [Hn Hu].
      apply updated_elem in Hu as (q & d & k & Hq & He & Hd & _ & ->).
      rewrite with_index_data_name in Hn. subst n.
      destruct (default_rerun_row packages w q d Hf Hok Hq Hd)
        as (Hrow & q0 & t0 & ->).
      fold w1 in Hrow. rewrite with_index_data_name in Hrow |- *.
      rewrite Hrow. simpl. f_equal.
    + assert (Hsame : processed packages w1 = processed packages w)
        by (unfold processed; by rewrite Hf).
      rewrite Hsame. unfold w1 at 2 3. rewrite !remote_db.
      rewrite !store_all_forget.
      rewrite (forget_updated _ (ticks w1) (ticks w)).
      apply store_all_idem.
  - intros k Hnone. unfold w2. rewrite remote_db.
    apply store_all_untouched.
    intros pv' (p & d & n & Hin & He & Hd & _ & ->)%updated_elem Hk.
    rewrite with_index_data_name in Hk.
    destruct (Hnone p Hin Hk) as [?|[e ?]]; congruence.
  - intros p d Hin He Hd.
    destruct (elem_updated (processed packages w1) (ticks w1) p d Hin He Hd)
      as (n0 & _ & Hu).
    destruct (store_all_stored
                (updated env (processed packages w1) (ticks w1)) (db w1)
                (package_name p)) as (pv' & Hpv' & _ & Hrow).
    { eexists. split; [exact Hu|]. done. }
    apply updated_elem in Hpv' as (q & d' & n & _ & _ & _ & Hn & ->).
    exists (with_index_data env q d' (clock env n)), n.
    split; [unfold w2; by rewrite remote_db|]. split; [reflexivity|].
    unfold w2. rewrite remote_ticks. lia.
Qed.

End Theory.

(** * More of the command and of the admin *)

Section MoreTheory.
Context (env : Env).

Implicit Types (w : World) (pv : PackageVersion) (r : Requirement).
Implicit Types (o : Options) (rs : list Requirement).

(** ** [handle], in closed form *)

Lemma remote_value packages w :
  remote env packages w =
    (Ok (remote_results env packages w), (remote env packages w).2).
Proof. rewrite remote_run. reflexivity. Qed.

Lemma local_value rs w :
  local env rs w = (Ok (found_records env rs (db w)), (local env rs w).2).
Proof. rewrite local_run. reflexivity. Qed.

Lemma handle_run o rs w :
  handle env o rs w =
    if opt_remote o then
      (handle_outcome env o
         (remote_results env (Some (handed_over env o rs w))
            (after_local env o rs w)),
       (remote env (Some (handed_over env o rs w))
          (after_local env o rs w)).2)
    else (Ok None, after_local env o rs w).
Proof.
  unfold handle, handed_over, after_local, after_clean.
  unfold mbind at 1 2, M_bind.
  assert (Hclean : (if opt_clean o then clean else mret ()) w
                   = (Ok (), if opt_clean o then (clean w).2 else w))
    by (destruct (opt_clean o); reflexivity).
  rewrite Hclean. set (w0 := if opt_clean o then (clean w).2 else w).
  assert (Hnotify : ∀ results w1,
    (if str_truthy (opt_notify o) then
       message ← render env "summary.txt" results;
       html_message ← render env "summary.html" results;
       mret (Some {| mail_subject := opt_subject o;
                     mail_message := message;
                     mail_from := opt_from o;
                     mail_to := option_list (opt_notify o);
                     mail_html := html_message |})
     else mret None) w1
    = (handle_outcome env o results, w1)).
  { intros results w1. unfold handle_outcome, mbind, M_bind, render.
    destruct (str_truthy (opt_notify o)); [|reflexivity].
    destruct (render_to_string env "summary.txt" results); [reflexivity|].
    destruct (render_to_string env "summary.html" results); reflexivity. }
  destruct (opt_local o).
  - rewrite (local_value rs w0).
    destruct (opt_remote o); [|reflexivity].
    unfold mbind at 1, M_bind. rewrite remote_value. apply Hnotify.
  - unfold mret at 1, M_ret.
    destruct (opt_remote o); [|reflexivity].
    unfold mbind at 1, M_bind. rewrite remote_value. apply Hnotify.
Qed.

Lemma after_clean_ticks o w : ticks (after_clean o w) = ticks w.
Proof. unfold after_clean. by destruct (opt_clean o). Qed.

Lemma after_clean_queries o w :
  index_queries (after_clean o w) = index_queries w.
Proof. unfold after_clean. by destruct (opt_clean o). Qed.

Lemma after_clean_db o w :
  db (after_clean o w) = if opt_clean o then ∅ else db w.
Proof. unfold after_clean. by destruct (opt_clean o). Qed.

Lemma after_local_ticks o rs w : ticks (after_local env o rs w) = ticks w.
Proof.
  unfold after_local. destruct (opt_local o).
  - rewrite local_run. simpl. apply after_clean_ticks.
  - apply after_clean_ticks.
Qed.

Lemma after_local_queries o rs w :
  index_queries (after_local env o rs w) = index_queries w.
Proof.
  unfold after_local. destruct (opt_local o).
  - rewrite local_run. simpl. apply after_clean_queries.
  - apply after_clean_queries.
Qed.

Lemma after_local_db o rs w :
  db (after_local env o rs w) =
    if opt_local o then local_db env rs (db (after_clean o w))
    else db (after_clean o w).
Proof.
  unfold after_local. destruct (opt_local o); [|done].
  by rewrite local_run.
Qed.

Lemma processed_some l w : l ≠ [] → processed (Some l) w = l.
Proof. by destruct l. Qed.

Lemma processed_nil w :
  processed (Some []) w
    = filter (λ pv, is_editable pv = false) (rows (db w)).
Proof. reflexivity. Qed.

Lemma remote_queries packages w :
  index_queries (remote env packages w).2
    = index_queries w ++ queried (processed packages w).
Proof. by rewrite remote_run. Qed.

(** ** What [handle] does with its options *)





(** X2. Without --remote, [handle] asks the index nothing, takes no clock
    reading and sends nothing, whatever the other options are (a notify
    address alone has no effect). *)
Theorem handle_without_remote o rs w :
  opt_remote o = false →
  ∃ w',
    handle env o rs w = (Ok None, w') ∧
    index_queries w' = index_queries w ∧
    ticks w' = ticks w.
Proof.
  intros Hr. rewrite handle_run, Hr. eexists. split; [reflexivity|].
  split; [apply after_local_queries | apply after_local_ticks].
Qed.

(** X22. Called with the defaults of [add_arguments] (no flag given), the
    command does nothing at all: the table, the log, the clock and the index
    are left untouched and no message is prepared. *)
Theorem handle_defaults_do_nothing rs w :
  handle env default_options rs w = (Ok None, w).
Proof. rewrite handle_run. reflexivity. Qed.

Lemma remote_db_ext packages w w2 :
  db w2 = db w → ticks w2 = ticks w →
  db (remote env packages w2).2 = db (remote env packages w).2.
Proof.
  intros Hdb Ht. rewrite !remote_db. unfold processed.
  by rewrite Hdb, Ht.
Qed.

(** X3. With --clean the table [handle] leaves does not depend on the table
    it found: two runs that start at the same clock reading end with the
    same table, and without --remote that table is what [local] builds from
    the empty table (the empty table itself without --local). *)
Theorem handle_clean_forgets o rs w :
  opt_clean o = true →
  (∀ w2, ticks w2 = ticks w →
     db (handle env o rs w2).2 = db (handle env o rs w).2) ∧
  (opt_remote o = false →
   db (handle env o rs w).2 = if opt_local o then local_db env rs ∅ else ∅).
Proof.
  intros Hc.
  assert (Hdb : ∀ w0, db (after_local env o rs w0)
                      = if opt_local o then local_db env rs ∅ else ∅).
  { intros w0. rewrite after_local_db, after_clean_db, Hc. done. }
  split.
  - intros w2 Ht. rewrite !handle_run.
    assert (Hh : handed_over env o rs w2 = handed_over env o rs w).
    { unfold handed_over. by rewrite !after_clean_db, Hc. }
    destruct (opt_remote o); simpl.
    + rewrite Hh. apply remote_db_ext.
      * by rewrite !Hdb.
      * by rewrite !after_local_ticks.
    + by rewrite !Hdb.
  - intros Hr. rewrite handle_run, Hr. simpl. apply Hdb.
Qed.

(** X4. When --remote runs with nothing handed over ([--local] absent, or
    [local] found no record), it refreshes the default batch: the index is
    asked about every non-editable row of the table as [clean] and [local]
    left it, and about nothing else. *)
Theorem handle_remote_default o rs w :
  opt_remote o = true →
  handed_over env o rs w = [] →
  index_queries (handle env o rs w).2 =
    index_queries w ++
    (package_name <$>
       filter (λ pv, is_editable pv = false)
         (rows (db (after_local env o rs w)))).
Proof.
  intros Hr Hh. rewrite handle_run, Hr, Hh. simpl.
  rewrite remote_queries, processed_nil, after_local_queries.
  by rewrite queried_non_editable.
Qed.

(** X5. When [local] hands records over, --remote refreshes those and no
    others: the index is asked about the non-editable ones among them, in
    order, and a stored row whose name none of them bears is left as [local]
    left it. *)
Theorem handle_remote_manifest o rs w :
  opt_remote o = true →
  handed_over env o rs w ≠ [] →
  index_queries (handle env o rs w).2
    = index_queries w ++ queried (handed_over env o rs w) ∧
  (∀ k,
     (∀ p, p ∈ handed_over env o rs w → package_name p ≠ k) →
     db (handle env o rs w).2 !! k = db (after_local env o rs w) !! k).
Proof.
  intros Hr Hh. rewrite handle_run, Hr. simpl.
  rewrite remote_queries, remote_db, processed_some, after_local_queries
    by done.
  split; [done|]. intros k Hk. apply store_all_untouched.
  intros pv' (p & d & n & Hin & _ & _ & _ & ->)%updated_elem.
  rewrite with_index_data_name. by apply Hk.
Qed.

(** ** More on [local] *)

Lemma db_after_create_has r m :
  is_Some (db_after_create env r m !! package_name (PackageVersion_init env r)).
Proof.
  unfold db_after_create.
  destruct (m !! package_name (PackageVersion_init env r)) as [x|] eqn:Hm.
  - rewrite Hm. eauto.
  - rewrite lookup_insert_eq. eauto.
Qed.

Lemma local_db_cons r rs m :
  local_db env (r :: rs) m = local_db env rs (db_after_create env r m).
Proof. reflexivity. Qed.

Lemma local_db_has rs m r :
  r ∈ rs →
  is_Some (local_db env rs m !! package_name (PackageVersion_init env r)).
Proof.
  revert m. induction rs as [|r0 rs IH]; intros m Hin.
  - by apply elem_of_nil in Hin.
  - rewrite local_db_cons. apply elem_of_cons in Hin as [->|Hin].
    + destruct (db_after_create_has r0 m) as [x Hx].
      exists x. by apply local_db_keeps.
    + by apply IH.
Qed.

Lemma local_db_fixed rs m :
  (∀ r, r ∈ rs → is_Some (m !! package_name (PackageVersion_init env r))) →
  local_db env rs m = m.
Proof.
  induction rs as [|r rs IH]; intros Hall; [done|].
  rewrite local_db_cons, db_after_create_taken by (apply Hall; left).
  apply IH. intros r' Hr'. apply Hall. by right.
Qed.

Lemma local_log_fixed rs m name :
  (∀ r, r ∈ rs → is_Some (m !! package_name (PackageVersion_init env r))) →
  (INFO, MsgPackageAdded name) ∉ local_log env rs m.
Proof.
  induction rs as [|r rs IH]; intros Hall.
  - apply not_elem_of_nil.
  - rewrite local_log_cons, db_after_create_taken by (apply Hall; left).
    intros [Hin|Hin]%elem_of_app.
    + unfold local_step_log in Hin.
      destruct (Hall r) as [x Hx]; [left|]. rewrite Hx in Hin.
      apply elem_of_app in Hin as [Hin|Hin].
      * apply elem_of_cons in Hin as [[=]|Hin].
        apply list_elem_of_singleton in Hin. discriminate Hin.
      * destruct (found_for env r m).
        -- by apply elem_of_nil in Hin.
        -- apply list_elem_of_singleton in Hin. discriminate Hin.
    + revert Hin. apply IH. intros r' Hr'. apply Hall. by right.
Qed.

(** X6. A second run of [local] on the same requirements creates nothing:
    the table stays as the first run left it, every creation ends in the
    'already exists' branch, and the lines the second run adds to the log
    contain no 'added' message. *)
Theorem local_twice rs w :
  let w1 := (local env rs w).2 in
  let w2 := (local env rs w1).2 in
  db w2 = db w1 ∧
  ∃ lines, log w2 = log w1 ++ lines ∧
    (∀ name, (INFO, MsgPackageAdded name) ∉ lines) ∧
    (∀ r, r ∈ rs → (INFO, MsgPackageExists (req_name r)) ∈ lines).
Proof.
  intros w1 w2.
  assert (Hall : ∀ r, r ∈ rs →
            is_Some (db w1 !! package_name (PackageVersion_init env r))).
  { intros r Hr. unfold w1. rewrite local_run. simpl. by apply local_db_has. }
  unfold w2. rewrite (local_run env rs w1). simpl.
  split; [by apply local_db_fixed|].
  eexists. split; [reflexivity|]. split.
  - intros name [[=]|Hin]%elem_of_cons. revert Hin. by apply local_log_fixed.
  - intros r (a & b & ->)%list_elem_of_split. right.
    apply (local_log_at env a r b).
    rewrite local_db_fixed
      by (intros r' Hr'; apply Hall, elem_of_app; by left).
    unfold local_step_log. destruct (Hall r) as [x Hx].
    { apply elem_of_app. right. left. }
    rewrite Hx. apply elem_of_app. left. right. left.
Qed.

Lemma local_db_lookup_None rs m k :
  m !! k = None →
  (∀ r, r ∈ rs → package_name (PackageVersion_init env r) ≠ k) →
  local_db env rs m !! k = None.
Proof.
  revert m. induction rs as [|r rs IH]; intros m Hm Hne; [done|].
  rewrite local_db_cons. apply IH.
  - unfold db_after_create.
    destruct (m !! package_name (PackageVersion_init env r)); [done|].
    rewrite lookup_insert_ne; [done|]. apply Hne. left.
  - intros r' Hr'. apply Hne. by right.
Qed.

(** X7. Among requirements that yield the same record name, the first one
    wins: when the name is new to the table, the row stored under it after
    [local] is the record built from the first such requirement, whatever
    follows in the manifest. *)
Theorem local_first_wins before r after w :
  db w !! package_name (PackageVersion_init env r) = None →
  (∀ r', r' ∈ before →
     package_name (PackageVersion_init env r')
       ≠ package_name (PackageVersion_init env r)) →
  db (local env (before ++ r :: after) w).2
    !! package_name (PackageVersion_init env r)
    = Some (PackageVersion_init env r).
Proof.
  intros Hnew Hfirst. rewrite local_run. simpl.
  rewrite local_db_app, local_db_cons. apply local_db_keeps.
  unfold db_after_create.
  rewrite (local_db_lookup_None before) by done.
  apply lookup_insert_eq.
Qed.

(** X8. [local] deletes no row and adds rows only under the names of the
    records built from the requirements: the names stored afterwards are the
    names stored before together with those. *)
Theorem local_names rs w :
  dom (db (local env rs w).2) =
    dom (db w) ∪
    list_to_set ((λ r, package_name (PackageVersion_init env r)) <$> rs).
Proof.
  rewrite local_run. simpl. generalize (db w). clear w.
  induction rs as [|r rs IH]; intros m.
  - simpl. by rewrite (right_id_L ∅ (∪)).
  - rewrite local_db_cons, IH, fmap_cons, list_to_set_cons.
    unfold db_after_create.
    destruct (m !! package_name (PackageVersion_init env r)) as [x|] eqn:Hm.
    + apply elem_of_dom_2 in Hm.
      rewrite (assoc_L (∪)). f_equal.
      apply set_eq. intros k. rewrite elem_of_union, elem_of_singleton.
      split; [by left | intros [?| ->]; done].
    + rewrite dom_insert_L, (assoc_L (∪)). f_equal.
      apply (comm_L (∪)).
Qed.

Lemma found_records_own rs m :
  (∀ r, r ∈ rs →
     name_or_uri r = Some (package_name (PackageVersion_init env r))) →
  Forall2
    (λ r pv,
       local_db env rs m !! package_name (PackageVersion_init env r) = Some pv)
    rs (found_records env rs m).
Proof.
  revert m. induction rs as [|r rs IH]; intros m Hown; cbn [found_records].
  - constructor.
  - assert (Hr : name_or_uri r
                 = Some (package_name (PackageVersion_init env r)))
      by (apply Hown; left).
    destruct (found_for_own_name env r m Hr) as [pv Hpv].
    rewrite Hpv. cbn [option_list app]. constructor.
    + apply found_for_Some in Hpv as (key & Hk & Hl).
      rewrite Hr in Hk. injection Hk as <-.
      rewrite local_db_cons. by apply local_db_keeps.
    + rewrite local_db_cons.
      eapply Forall2_impl; [apply IH|].
      * intros r' Hr'. apply Hown. by right.
      * done.
Qed.

(** X9. When every requirement is looked up by the name its record is filed
    under (the case of a named requirement), [local] returns one record per
    requirement, duplicates included: the i-th record of the list is the row
    stored under the name of the i-th requirement. *)
Theorem local_one_per_requirement rs w :
  (∀ r, r ∈ rs →
     name_or_uri r = Some (package_name (PackageVersion_init env r))) →
  ∃ pkgs w',
    local env rs w = (Ok pkgs, w') ∧
    length pkgs = length rs ∧
    (∀ i r, rs !! i = Some r →
       ∃ pv, pkgs !! i = Some pv ∧
         db w' !! package_name (PackageVersion_init env r) = Some pv).
Proof.
  intros Hown. eexists _, _. split; [apply local_run|]. simpl.
  pose proof (found_records_own rs (db w) Hown) as Hall.
  split; [symmetry; by eapply Forall2_length|].
  intros i r Hi.
  destruct (Forall2_lookup_l _ _ _ _ _ Hall Hi) as (pv & Hpv & Hrow). eauto.
Qed.

(** ** More on [remote] *)

Lemma loop_log_lines pkgs tk :
  Forall2 (remote_line env) pkgs (loop_log env pkgs tk).
Proof.
  revert tk. induction pkgs as [|pv pkgs IH]; intros tk; simpl.
  - constructor.
  - destruct (is_editable pv) eqn:He.
    + constructor; [by left | apply IH].
    + destruct (index env (package_name pv)) as [e|d] eqn:Hi.
      * constructor; [right; left; eauto | apply IH].
      * constructor; [right; right; eauto | apply IH].
Qed.

(** X11. [remote] reports on every record of its batch: after the opening
    line it writes exactly one line per record, in batch order, which says
    that the record was skipped as editable, that its update failed (at
    level ERROR, with the exception), or that it was updated. *)
Theorem remote_logs_each_record packages w :
  ∃ lines,
    log (remote env packages w).2 = log w ++ (INFO, MsgFetching) :: lines ∧
    Forall2 (remote_line env) (processed packages w) lines.
Proof.
  rewrite remote_run. simpl. eexists. split; [reflexivity|].
  apply loop_log_lines.
Qed.

(** X12. With a clock that does not run backwards, the 'refreshed_at' entry
    of the result is not earlier than the query stamp of any record listed
    in it: the reading is taken after the last update. *)
Theorem remote_refreshed_at_is_last packages w :
  (∀ a b, a ≤ b → clock env a ≤ clock env b) →
  ∃ results w' t_end,
    remote env packages w = (Ok results, w') ∧
    results !! "refreshed_at" = Some (Time t_end) ∧
    ∀ k l pv', results !! k = Some (Records l) → pv' ∈ l →
      ∃ t, checked_pypi_at pv' = Some t ∧ t ≤ t_end.
Proof.
  intros Hmono. eexists _, _, _. split; [apply remote_run|]. simpl.
  split; [apply lookup_insert_eq|].
  intros k l pv' Hl Hin.
  destruct (decide (k = "refreshed_at")) as [->|Hk].
  { by rewrite lookup_insert_eq in Hl. }
  rewrite lookup_insert_ne, lookup_fmap, group_into_lookup in Hl by done.
  rewrite lookup_empty in Hl. simpl in Hl.
  set (u := updated env (processed packages w) (ticks w)) in *.
  assert (Hin' : pv' ∈ under k u).
  { destruct (under k u); [done|]. by injection Hl as <-. }
  apply list_elem_of_filter in Hin' as [_ Hu].
  apply updated_elem in Hu as (pv & d & n & _ & _ & _ & Hn & ->).
  eexists. split; [reflexivity|]. apply Hmono. fold u in Hn. lia.
Qed.

Lemma store_all_dom l (m : gmap string PackageVersion) k :
  k ∈ dom (store_all l m) ↔
  k ∈ dom m ∨ ∃ pv', pv' ∈ l ∧ package_name pv' = k.
Proof.
  rewrite !elem_of_dom, store_all_lookup.
  destruct (last _) as [x|] eqn:Hl.
  - apply last_Some_elem_of, list_elem_of_filter in Hl as [? ?].
    split; [right; eauto | eauto].
  - apply last_None in Hl. split; [by left|].
    intros [?|(pv' & Hin & Hk)]; [done|].
    assert (Hf : pv' ∈ filter (λ pv', package_name pv' = k) l)
      by (apply list_elem_of_filter; done).
    rewrite Hl in Hf. by apply elem_of_nil in Hf.
Qed.

(** X13. [remote] deletes no row.  A name is stored after the run exactly
    when it was stored before or a non-editable record of the batch with a
    successful query bears it; the default batch of a well-formed table
    therefore leaves the set of stored names as it was. *)
Theorem remote_names packages w :
  (∀ k, k ∈ dom (db (remote env packages w).2) ↔
        k ∈ dom (db w) ∨
        ∃ pv d, pv ∈ processed packages w ∧ is_editable pv = false ∧
                index env (package_name pv) = inr d ∧ package_name pv = k) ∧
  (falsy packages = true → store_ok (db w) →
   dom (db (remote env packages w).2) = dom (db w)).
Proof.
  assert (Hdom : ∀ k, k ∈ dom (db (remote env packages w).2) ↔
        k ∈ dom (db w) ∨
        ∃ pv d, pv ∈ processed packages w ∧ is_editable pv = false ∧
                index env (package_name pv) = inr d ∧ package_name pv = k).
  { intros k. rewrite remote_db, store_all_dom. split.
    - intros [?|(pv' & Hu & Hk)]; [by left|]. right.
      apply updated_elem in Hu as (pv & d & n & ? & ? & ? & _ & ->).
      exists pv, d. done.
    - intros [?|(pv & d & Hin & He & Hd & Hk)]; [by left|]. right.
      destruct (elem_updated env _ (ticks w) pv d Hin He Hd) as (n & _ & Hu).
      eexists. split; [exact Hu|]. done. }
  split; [exact Hdom|].
  intros Hf Hok. apply set_eq. intros k. rewrite Hdom.
  split; [|by left]. intros [?|(pv & d & Hin & _ & _ & Hk)]; [done|].
  rewrite processed_falsy in Hin by done.
  apply list_elem_of_filter in Hin as [_ [k' Hk']%elem_of_rows].
  apply elem_of_dom. rewrite <- Hk, (Hok _ _ Hk'). eauto.
Qed.

(** ** More on [check_pypi] *)

Lemma check_pypi_prefix before rest w :
  Forall (passes env) before →
  foldM (check_pypi_step env) (before ++ rest) () w =
    foldM (check_pypi_step env) rest ()
      (mkWorld (store_all (updated env before (ticks w)) (db w))
         (log w ++ admin_log before)
         (ticks w + length (updated env before (ticks w)))
         (index_queries w ++ queried before)).
Proof.
  revert w. induction before as [|p before IH]; intros w Hall.
  - destruct w; unfold admin_log, queried; simpl.
    by rewrite !app_nil_r, Nat.add_0_r.
  - apply Forall_cons in Hall as [Hp Hall].
    change ((p :: before) ++ rest) with (p :: (before ++ rest)).
    rewrite foldM_cons. unfold admin_log, queried. simpl. unfold step_update.
    destruct (is_editable p) eqn:He.
    + rewrite check_pypi_step_editable by done. rewrite IH by done. simpl.
      rewrite filter_cons_True, (filter_cons_False _ p) by congruence.
      unfold admin_log, queried. simpl.
      by rewrite <- app_assoc.
    + destruct Hp as [Hp|[d Hd]]; [congruence|].
      rewrite (check_pypi_step_updated env _ _ d) by done.
      rewrite IH by done. simpl. rewrite Hd.
      rewrite filter_cons_False, (filter_cons_True _ p) by congruence.
      unfold admin_log, queried. simpl.
      by rewrite <- app_assoc, Nat.add_succ_r.
Qed.

(** X14. [check_pypi] stops at the first record whose update fails: it ends
    with that record's exception; the records before it are handled as
    [remote] would handle them, the failing query is the last one made, the
    records after it are neither queried nor updated, and nothing is logged
    about the failure. *)
Theorem check_pypi_stops_at_failure before p after e w :
  Forall (passes env) before →
  is_editable p = false →
  index env (package_name p) = inl e →
  ∃ w',
    check_pypi env (before ++ p :: after) w = (Raise e, w') ∧
    db w' = store_all (updated env before (ticks w)) (db w) ∧
    index_queries w'
      = index_queries w ++ queried before ++ [package_name p] ∧
    log w' = log w ++ admin_log before.
Proof.
  intros Hall He Hi. unfold check_pypi.
  rewrite check_pypi_prefix, foldM_cons by done.
  rewrite (check_pypi_step_failed env _ _ e) by done.
  eexists. split; [reflexivity|]. simpl.
  split; [done|]. split; [by rewrite <- app_assoc | done].
Qed.

(** X15. When no update fails, [check_pypi] goes through the whole
    selection and leaves the table [remote] leaves when it is handed the
    same records at the same clock reading. *)
Theorem check_pypi_agrees_with_remote qs w :
  Forall (passes env) qs →
  ∃ w',
    check_pypi env qs w = (Ok (), w') ∧
    db w' = store_all (updated env qs (ticks w)) (db w) ∧
    index_queries w' = index_queries w ++ queried qs ∧
    (qs ≠ [] → db w' = db (remote env (Some qs) w).2).
Proof.
  intros Hall. unfold check_pypi.
  pose proof (check_pypi_prefix qs [] w Hall) as Hrun.
  rewrite app_nil_r in Hrun. rewrite Hrun.
  eexists. split; [reflexivity|]. simpl.
  split; [done|]. split; [done|].
  intros Hne. by rewrite remote_db, processed_some.
Qed.

(** ** [available_updates] *)

(** The admin field asks the index about the record it is shown, whatever
    the record is, and stores nothing. *)
Lemma available_updates_trace obj w :
  index_queries (available_updates env obj w).2
    = index_queries w ++ [package_name obj] ∧
  db (available_updates env obj w).2 = db w.
Proof.
  unfold available_updates, mbind, M_bind, query_index.
  destruct (index env (package_name obj)) as [e|d]; [done|].
  destruct (newer_versions _ _); done.
Qed.

End MoreTheory.

(** ** The 'Update available' filter and column *)

Lemma queryset_unknown qs pv :
  pv ∈ queryset (Some "-1") qs ↔ pv ∈ qs ∧ latest_version pv = None.
Proof.
  unfold queryset. rewrite decide_True by done.
  rewrite list_elem_of_filter. tauto.
Qed.

Lemma queryset_no qs pv :
  pv ∈ queryset (Some "0") qs ↔
  pv ∈ qs ∧ current_version pv ≠ None ∧ latest_version pv ≠ None ∧
  latest_version pv = current_version pv.
Proof.
  unfold queryset. rewrite decide_False by discriminate.
  rewrite decide_True by done. rewrite list_elem_of_filter. tauto.
Qed.

Lemma queryset_yes qs pv :
  pv ∈ queryset (Some "1") qs ↔
  pv ∈ qs ∧ current_version pv ≠ None ∧ latest_version pv ≠ None ∧
  latest_version pv ≠ current_version pv.
Proof.
  unfold queryset. rewrite !decide_False by discriminate.
  rewrite decide_True by done. rewrite !list_elem_of_filter. tauto.
Qed.

Lemma lookups_values v :
  v ∈ lookups.*1 ↔ v = "1" ∨ v = "0" ∨ v = "-1".
Proof.
  unfold lookups. simpl. rewrite !elem_of_cons, elem_of_nil. tauto.
Qed.

(** X16. The three values of the filter never overlap: no record is listed
    under two of 'Yes', 'No' and 'Unknown'. *)
Theorem queryset_values_disjoint qs pv :
  ¬ (pv ∈ queryset (Some "1") qs ∧ pv ∈ queryset (Some "0") qs) ∧
  ¬ (pv ∈ queryset (Some "1") qs ∧ pv ∈ queryset (Some "-1") qs) ∧
  ¬ (pv ∈ queryset (Some "0") qs ∧ pv ∈ queryset (Some "-1") qs).
Proof.
  rewrite queryset_yes, queryset_no, queryset_unknown. tauto.
Qed.

(** X17. A record of the list is found under one of the three values
    exactly when it is not the case that it has a latest version and no
    current one; the records the filter loses are those and no others. *)
Theorem queryset_coverage qs pv :
  pv ∈ qs →
  ((∃ v, v ∈ lookups.*1 ∧ pv ∈ queryset (Some v) qs) ↔
   ¬ (current_version pv = None ∧ latest_version pv ≠ None)).
Proof.
  intros Hin. split.
  - intros (v & [-> | [-> | ->]]%lookups_values & Hv).
    + apply queryset_yes in Hv. tauto.
    + apply queryset_no in Hv. tauto.
    + apply queryset_unknown in Hv. tauto.
  - intros Hnot.
    destruct (decide (latest_version pv = None)) as [Hl|Hl].
    { exists "-1". split; [apply lookups_values; auto|].
      by apply queryset_unknown. }
    destruct (decide (current_version pv = None)) as [Hc|Hc]; [tauto|].
    destruct (decide (latest_version pv = current_version pv)) as [He|He].
    + exists "0". split; [apply lookups_values; auto|].
      by apply queryset_no.
    + exists "1". split; [apply lookups_values; auto|].
      by apply queryset_yes.
Qed.

(** X18. The filter only ever drops records: its result is a sub-sequence
    of the list it is given, in the same order, and filtering the result
    again changes nothing; with no value, or a value that is none of the
    three, it returns the list as it is. *)
Theorem queryset_only_drops v qs :
  queryset v qs `sublist_of` qs ∧
  queryset v (queryset v qs) = queryset v qs ∧
  (v = None ∨ (∃ s, v = Some s ∧ s ∉ lookups.*1) → queryset v qs = qs).
Proof.
  assert (Hall : ∀ (P : PackageVersion → Prop) `{!∀ x, Decision (P x)}
                   (l : list PackageVersion),
            (∀ x, x ∈ l → P x) → filter P l = l).
  { intros P ? l. induction l as [|x l IH]; intros HP; [done|].
    rewrite filter_cons_True by (apply HP; left).
    f_equal. apply IH. intros y Hy. apply HP. by right. }
  split; [|split].
  - unfold queryset. repeat case_decide.
    + apply sublist_filter.
    + apply sublist_filter.
    + etrans; apply sublist_filter.
    + done.
  - unfold queryset. repeat case_decide; try done.
    + apply Hall. by intros x [? _]%list_elem_of_filter.
    + apply Hall. by intros x [? _]%list_elem_of_filter.
    + set (R := filter _ (filter _ qs)).
      assert (HR : filter (λ pv, current_version pv ≠ None
                                 ∧ latest_version pv ≠ None) R = R).
      { apply Hall. intros x [_ [? _]%list_elem_of_filter]%list_elem_of_filter.
        done. }
      rewrite HR. apply Hall. by intros x [? _]%list_elem_of_filter.
  - intros Hv. unfold queryset.
    rewrite !decide_False; [done|..].
    + intros ->. destruct Hv as [?|(s & [= <-] & Hs)]; [done|].
      apply Hs, lookups_values. auto.
    + intros ->. destruct Hv as [?|(s & [= <-] & Hs)]; [done|].
      apply Hs, lookups_values. auto.
    + intros ->. destruct Hv as [?|(s & [= <-] & Hs)]; [done|].
      apply Hs, lookups_values. auto.
Qed.

(** X19. For a record that is not editable, the 'Update available' column
    and the filter agree on 'Unknown' and on 'No', and every record listed
    under 'Yes' shows an update; but a record with a latest version and no
    current one shows an update in the column while no value of the filter
    lists it.  An editable record always shows unknown. *)
Theorem updateable_and_filter qs obj :
  obj ∈ qs →
  (is_editable obj = true → _updateable obj = None) ∧
  (is_editable obj = false →
   (obj ∈ queryset (Some "-1") qs ↔ _updateable obj = None) ∧
   (obj ∈ queryset (Some "0") qs ↔ _updateable obj = Some false) ∧
   (obj ∈ queryset (Some "1") qs ↔
    _updateable obj = Some true ∧ current_version obj ≠ None) ∧
   (current_version obj = None → latest_version obj ≠ None →
    _updateable obj = Some true)).
Proof.
  intros Hin. unfold _updateable. split.
  - intros ->. by rewrite orb_true_r.
  - intros ->. rewrite orb_false_r.
    rewrite queryset_unknown, queryset_no, queryset_yes.
    destruct (latest_version obj) as [l|] eqn:Hl,
             (current_version obj) as [c|] eqn:Hc; simpl.
    + repeat case_bool_decide; try congruence;
        (repeat split; try done; try tauto; try congruence; intros;
         repeat match goal with H : _ ∧ _ |- _ => destruct H end;
         try done; try congruence).
    + repeat case_bool_decide; try congruence;
        (repeat split; try done; try tauto; try congruence; intros;
         repeat match goal with H : _ ∧ _ |- _ => destruct H end;
         try done; try congruence).
    + repeat case_bool_decide; try congruence;
        (repeat split; try done; try tauto; try congruence; intros;
         repeat match goal with H : _ ∧ _ |- _ => destruct H end;
         try done; try congruence).
    + repeat case_bool_decide; try congruence;
        (repeat split; try done; try tauto; try congruence; intros;
         repeat match goal with H : _ ∧ _ |- _ => destruct H end;
         try done; try congruence).
Qed.

(** ** [html_list] *)

Lemma string_app_assoc (a b c : string) :
  (a +:+ b) +:+ c = a +:+ (b +:+ c).
Proof.
  induction a as [|ch a IH]; [done|].
  change (String ch ((a +:+ b) +:+ c) = String ch (a +:+ (b +:+ c))).
  by f_equal.
Qed.

Lemma string_app_length (a b : string) :
  String.length (a +:+ b) = String.length a + String.length b.
Proof.
  induction a as [|ch a IH]; [done|].
  change (S (String.length (a +:+ b))
          = S (String.length a + String.length b)).
  by f_equal.
Qed.

Lemma join_length (items : list string) :
  String.length (join items) = sum_list_with String.length items.
Proof.
  induction items as [|x items IH]; [done|].
  change (join (x :: items)) with (x +:+ join items).
  rewrite string_app_length, IH. done.
Qed.

Lemma join_items_cons (x : string) (l : list string) :
  join (as_li <$> x :: l) = as_li x +:+ join (as_li <$> l).
Proof. reflexivity. Qed.

(** X20. [html_list] inserts its values as they are, nothing is escaped: a
    value that contains the markup between two items renders exactly as the
    two items would. *)
Theorem html_list_does_not_escape a b l :
  html_list (Some ((a +:+ "</li><li>" +:+ b) :: l))
    = html_list (Some (a :: b :: l)).
Proof.
  unfold html_list. rewrite !join_items_cons. unfold as_li.
  rewrite !string_app_assoc. reflexivity.
Qed.

(** X21. [html_list] gives the empty string for [None] only: a list, even
    an empty one, renders as a <ul> element, whose length is the length of
    the values plus nine characters for the element and nine per item. *)
Theorem html_list_empty_only_for_None data :
  (html_list data = "" ↔ data = None) ∧
  (∀ l, data = Some l →
     String.length (html_list data)
       = 9 + sum_list_with (λ v, 9 + String.length v) l).
Proof.
  split.
  - destruct data as [l|]; simpl; [|done]. split; discriminate.
  - intros l ->. unfold html_list.
    rewrite !string_app_length, join_length.
    change (String.length "<ul>") with 4.
    change (String.length "</ul>") with 5.
    assert (Hitems : sum_list_with String.length (as_li <$> l)
                     = sum_list_with (λ v, 9 + String.length v) l).
    { induction l as [|v l IH]; [done|].
      rewrite fmap_cons. cbn [sum_list_with]. rewrite IH.
      unfold as_li. rewrite !string_app_length.
      change (String.length "<li>") with 4.
      change (String.length "</li>") with 5. lia. }
    rewrite Hitems. lia.
Qed.

(** * The theorems at work on the example *)

Lemma remote_survives_failures_witness :
  ∃ results w',
    remote Example.env (Some Example.batch) Example.synced
      = (Ok results, w') ∧
    db w' !! "flaky" = Some Example.flaky_row ∧
    (ERROR, MsgUpdateFailed Example.flaky_row IndexUnavailable) ∈ log w' ∧
    (∃ n l,
       results !! "major" = Some (Records l) ∧
       with_index_data Example.env Example.requests_row Example.requests_data
         (clock Example.env n) ∈ l ∧
       db w' !! "requests"
         = Some (with_index_data Example.env Example.requests_row
                   Example.requests_data (clock Example.env n))) ∧
    (∃ n l,
       results !! "up-to-date" = Some (Records l) ∧
       with_index_data Example.env Example.django_row Example.django_data
         (clock Example.env n) ∈ l ∧
       db w' !! "django"
         = Some (with_index_data Example.env Example.django_row
                   Example.django_data (clock Example.env n))).
Proof.
  destruct (remote_survives_failures Example.env (Some Example.batch)
              Example.synced)
    as (results & w' & Hrun & Hfail & Hgood).
  assert (Hnd : NoDup (package_name <$>
                         processed (Some Example.batch) Example.synced))
    by (apply (bool_decide_unpack _); vm_compute; exact I).
  exists results, w'. split; [exact Hrun|].
  destruct (Hfail Example.flaky_row IndexUnavailable) as [Hdb Hlog];
    [in_batch 1 | reflexivity | reflexivity |].
  change (package_name Example.flaky_row) with "flaky" in Hdb.
  split; [rewrite Hdb; vm_compute; reflexivity|]. split; [exact Hlog|].
  split.
  - destruct (Hgood Example.requests_row Example.requests_data)
      as (n & _ & (l & Hl & Hin) & _ & Hstored);
      [in_batch 0 | reflexivity | reflexivity |].
    exists n, l. split; [exact Hl|]. split; [exact Hin|]. exact (Hstored Hnd).
  - destruct (Hgood Example.django_row Example.django_data)
      as (n & _ & (l & Hl & Hin) & _ & Hstored);
      [in_batch 2 | reflexivity | reflexivity |].
    exists n, l. split; [exact Hl|]. split; [exact Hin|]. exact (Hstored Hnd).
Defined.


Lemma remote_twice_same_but_stamp_witness :
  let w1 := (remote Example.env None Example.synced).2 in
  let w2 := (remote Example.env None w1).2 in
  store_ok (db Example.synced) ∧
  forget_checked <$> db w2 = forget_checked <$> db w1 ∧
  db w2 !! "mylib" = db w1 !! "mylib" ∧
  ∃ pv2 n,
    db w2 !! "requests" = Some pv2 ∧
    checked_pypi_at pv2 = Some (clock Example.env n) ∧
    ticks w1 ≤ n < ticks w2.
Proof.
  intros w1 w2.
  assert (Hok : store_ok (db Example.synced))
    by apply store_ok_local, store_ok_empty.
  destruct (remote_twice_same_but_stamp Example.env None Example.synced Hok)
    as (Hsame & Hkeep & Hstamp).
  split; [exact Hok|]. split; [exact Hsame|]. split.
  - apply Hkeep. intros p Hp Hn. exfalso. vm_compute in Hp.
    repeat (apply elem_of_cons in Hp as [Hp|Hp];
            [subst p; discriminate Hn|]).
    by apply elem_of_nil in Hp.
  - destruct (Hstamp
                (with_index_data Example.env Example.requests_row
                   Example.requests_data 1000) Example.requests_data)
      as (pv2 & n & Hrow & Hst & Hn);
      [in_batch 1 | reflexivity | reflexivity |].
    exists pv2, n. split; [exact Hrow|]. split; [exact Hst | exact Hn].
Defined.

(** C3, as stated, fails: the second run stamps the rows it refreshes with
    its own clock readings. *)
Lemma remote_twice_restamps :
  let w1 := (remote Example.env None Example.synced).2 in
  let w2 := (remote Example.env None w1).2 in
  store_ok (db Example.synced) ∧
  checked_pypi_at <$> db w1 !! "requests" = Some (Some 1000) ∧
  checked_pypi_at <$> db w2 !! "requests" = Some (Some 1003) ∧
  db w2 ≠ db w1.
Proof.
  intros w1 w2.
  split; [apply store_ok_local, store_ok_empty|].
  split; [vm_compute; reflexivity|].
  split; [vm_compute; reflexivity|].
  intros Heq.
  apply (f_equal (λ m, checked_pypi_at <$> m !! "requests")) in Heq.
  vm_compute in Heq. discriminate Heq.
Qed.

Lemma remote_result_mapping_witness :
  ∃ results w',
    remote Example.env None Example.synced = (Ok results, w') ∧
    results !! "refreshed_at" = Some (Time 1002) ∧
    results !! "major"
      = Some (Records [with_index_data Example.env Example.requests_row
                         Example.requests_data 1000]) ∧
    results !! "up-to-date"
      = Some (Records [with_index_data Example.env Example.django_row
                         Example.django_data 1001]) ∧
    results !! "unknown" = None ∧
    results !! "flaky" = None.
Proof.
  destruct (remote_result_mapping Example.env None Example.synced)
    as (results & w' & Hrun & _ & Href & Hstatus & Hother & _).
  exists results, w'. split; [exact Hrun|].
  pose proof (Hstatus Major) as Hmajor. cbn [status_key] in Hmajor.
  pose proof (Hstatus UpToDate) as Hsame. cbn [status_key] in Hsame.
  pose proof (Hstatus Unknown) as Hunknown. cbn [status_key] in Hunknown.
  split; [rewrite Href; vm_compute; reflexivity|].
  split; [rewrite Hmajor; vm_compute; reflexivity|].
  split; [rewrite Hsame; vm_compute; reflexivity|].
  split; [rewrite Hunknown; vm_compute; reflexivity|].
  apply Hother; [discriminate|]. intros []; discriminate.
Defined.

Lemma local_keeps_existing_witness :
  ∃ pkgs w',
    local Example.env Example.manifest Example.synced = (Ok pkgs, w') ∧
    db w' !! "requests" = Some Example.requests_row ∧
    (INFO, MsgPackageExists (Some "requests")) ∈ log w' ∧
    Example.requests_row ∈ pkgs.
Proof.
  destruct (local_keeps_existing Example.env Example.manifest Example.synced)
    as (pkgs & w' & Hrun & Hkeep & Hexists & Hfound).
  exists pkgs, w'. split; [exact Hrun|].
  split; [apply Hkeep; vm_compute; reflexivity|].
  split.
  { apply (Hexists (Example.pinned "requests" "2.0.0") Example.requests_row).
    - in_batch 0.
    - vm_compute. reflexivity. }
  apply (Hfound (Example.pinned "requests" "2.0.0") "requests").
  - in_batch 0.
  - reflexivity.
  - vm_compute. reflexivity.
Defined.

Lemma local_collects_found_witness :
  ∃ pkgs w',
    local Example.env Example.odd_manifest Example.empty_world
      = (Ok pkgs, w') ∧
    pkgs = [Example.requests_row] ∧
    (ERROR, MsgSkippingMissing (Example.nameless "git+https://x/b"))
      ∈ log w' ∧
    db w' !! "git+https://x/b" = None.
Proof.
  destruct (local_collects_found Example.env Example.odd_manifest
              Example.empty_world)
    as (pkgs & w' & Hrun & Hpkgs & _ & _ & _ & _ & Hskip).
  exists pkgs, w'. split; [exact Hrun|].
  destruct (Hskip [Example.nameless "git+https://x/a"]
              (Example.nameless "git+https://x/b")
              [Example.pinned "requests" "2.0.0"])
    as (Hlog & Hrest & Hsame); [reflexivity | vm_compute; reflexivity |].
  split; [rewrite Hrest; vm_compute; reflexivity|].
  split; [exact Hlog|].
  rewrite local_run in Hrun. injection Hrun as _ <-.
  vm_compute. reflexivity.
Defined.


Lemma remote_default_is_non_editable_witness :
  falsy None = true ∧
  ∃ results w',
    remote Example.env None Example.synced = (Ok results, w') ∧
    index_queries w' = ["flaky"; "requests"; "django"].
Proof.
  split; [reflexivity|].
  destruct (remote_default_is_non_editable Example.env None Example.synced
              eq_refl)
    as (_ & _ & results & w' & Hrun & Hq).
  exists results, w'. split; [exact Hrun|].
  rewrite Hq. vm_compute. reflexivity.
Defined.

Lemma update_filter_misses_unversioned_witness :
  current_version Example.unversioned_row = None ∧
  latest_version Example.unversioned_row ≠ None ∧
  (Example.unversioned_row ∈ queryset None [Example.unversioned_row]) ∧
  (Example.unversioned_row ∉ queryset (Some "1") [Example.unversioned_row]) ∧
  (Example.unversioned_row ∉ queryset (Some "0") [Example.unversioned_row]) ∧
  (Example.unversioned_row ∉ queryset (Some "-1") [Example.unversioned_row]).
Proof.
  destruct update_filter_misses_unversioned as [_ Hmiss].
  assert (Hc : current_version Example.unversioned_row = None)
    by reflexivity.
  assert (Hl : latest_version Example.unversioned_row ≠ None)
    by discriminate.
  split; [exact Hc|]. split; [exact Hl|].
  split; [left|].
  split; [|split]; apply Hmiss; try assumption.
  - in_batch 0.
  - in_batch 1.
  - in_batch 2.
Defined.

(** C2.  The code departs from the claim: the admin field
    [available_updates] asks the index about whatever record it is shown.
    For the stored editable record mylib the query trace after the call
    holds its name, although [remote] and [check_pypi] would have skipped
    it. *)
Theorem available_updates_queries_editable :
  db Example.synced !! "mylib" = Some Example.mylib_row ∧
  is_editable Example.mylib_row = true ∧
  index_queries Example.synced = [] ∧
  index_queries
    (available_updates Example.env Example.mylib_row Example.synced).2
    = ["mylib"].
Proof.
  split; [vm_compute; reflexivity|]. split; [reflexivity|].
  split; [vm_compute; reflexivity|].
  destruct (available_updates_trace Example.env Example.mylib_row
              Example.synced) as [Htrace _].
  rewrite Htrace. vm_compute. reflexivity.
Qed.

Lemma handle_without_remote_witness :
  opt_remote Example.load_only = false ∧
  ∃ w',
    handle Example.env Example.load_only Example.manifest Example.empty_world
      = (Ok None, w') ∧
    index_queries w' = [] ∧ ticks w' = 0.
Proof.
  split; [reflexivity|].
  exact (handle_without_remote Example.env Example.load_only Example.manifest
           Example.empty_world eq_refl).
Defined.

Lemma handle_clean_forgets_witness :
  opt_clean Example.rebuild = true ∧
  db (handle Example.env Example.rebuild Example.manifest
        Example.empty_world).2
    = db (handle Example.env Example.rebuild Example.manifest
            Example.synced).2.
Proof.
  split; [reflexivity|].
  destruct (handle_clean_forgets Example.env Example.rebuild Example.manifest
              Example.synced eq_refl) as [Hsame _].
  apply (Hsame Example.empty_world). reflexivity.
Defined.

Lemma handle_remote_default_witness :
  opt_remote Example.refresh_only = true ∧
  handed_over Example.env Example.refresh_only [] Example.synced = [] ∧
  index_queries (handle Example.env Example.refresh_only []
                   Example.synced).2
    = ["flaky"; "requests"; "django"].
Proof.
  split; [reflexivity|]. split; [reflexivity|].
  rewrite (handle_remote_default Example.env Example.refresh_only []
             Example.synced eq_refl eq_refl).
  vm_compute. reflexivity.
Defined.

Lemma handle_remote_manifest_witness :
  opt_remote Example.rebuild = true ∧
  handed_over Example.env Example.rebuild [Example.pinned "django" "1.8.2"]
    Example.synced ≠ [] ∧
  index_queries (handle Example.env Example.rebuild
                   [Example.pinned "django" "1.8.2"] Example.synced).2
    = ["django"].
Proof.
  assert (Hne : handed_over Example.env Example.rebuild
                  [Example.pinned "django" "1.8.2"] Example.synced ≠ [])
    by (intros H; vm_compute in H; discriminate H).
  split; [reflexivity|]. split; [exact Hne|].
  destruct (handle_remote_manifest Example.env Example.rebuild
              [Example.pinned "django" "1.8.2"] Example.synced eq_refl Hne)
    as [Hq _].
  rewrite Hq. vm_compute. reflexivity.
Defined.

Lemma local_first_wins_witness :
  db Example.empty_world
    !! package_name (Example.init (Example.pinned "django" "1.8.2")) = None ∧
  db (local Example.env
        ([Example.pinned "requests" "2.0.0"]
           ++ Example.pinned "django" "1.8.2"
           :: [Example.pinned "django" "1.9.0"])
        Example.empty_world).2 !! "django"
    = Some Example.django_row.
Proof.
  split; [reflexivity|].
  apply (local_first_wins Example.env [Example.pinned "requests" "2.0.0"]
           (Example.pinned "django" "1.8.2")
           [Example.pinned "django" "1.9.0"] Example.empty_world).
  - reflexivity.
  - intros r' Hr'. apply list_elem_of_singleton in Hr' as ->. discriminate.
Defined.

Lemma local_one_per_requirement_witness :
  (∀ r, r ∈ Example.manifest →
     name_or_uri r = Some (package_name (Example.init r))) ∧
  ∃ pkgs w',
    local Example.env Example.manifest Example.synced = (Ok pkgs, w') ∧
    length pkgs = 4.
Proof.
  assert (Hown : ∀ r, r ∈ Example.manifest →
            name_or_uri r = Some (package_name (Example.init r))).
  { intros r Hr. unfold Example.manifest in Hr.
    repeat (apply elem_of_cons in Hr as [->|Hr]); try reflexivity.
    by apply elem_of_nil in Hr. }
  split; [exact Hown|].
  destruct (local_one_per_requirement Example.env Example.manifest
              Example.synced Hown) as (pkgs & w' & Hrun & Hlen & _).
  exists pkgs, w'. split; [exact Hrun | exact Hlen].
Defined.

Lemma remote_refreshed_at_is_last_witness :
  (∀ a b, a ≤ b → clock Example.env a ≤ clock Example.env b) ∧
  ∃ results w' t_end,
    remote Example.env None Example.synced = (Ok results, w') ∧
    results !! "refreshed_at" = Some (Time t_end).
Proof.
  assert (Hmono : ∀ a b, a ≤ b → clock Example.env a ≤ clock Example.env b)
    by (intros a b Hab; simpl; lia).
  split; [exact Hmono|].
  destruct (remote_refreshed_at_is_last Example.env None Example.synced Hmono)
    as (results & w' & t_end & Hrun & Href & _).
  exists results, w', t_end. split; [exact Hrun | exact Href].
Defined.

Lemma check_pypi_stops_at_failure_witness :
  Forall (passes Example.env) [Example.requests_row; Example.mylib_row] ∧
  is_editable Example.flaky_row = false ∧
  index Example.env (package_name Example.flaky_row)
    = inl IndexUnavailable ∧
  ∃ w',
    check_pypi Example.env
      ([Example.requests_row; Example.mylib_row]
         ++ Example.flaky_row :: [Example.django_row]) Example.synced
      = (Raise IndexUnavailable, w') ∧
    index_queries w' = ["requests"; "flaky"] ∧
    db w' !! "django" = Some Example.django_row.
Proof.
  assert (Hpass : Forall (passes Example.env)
                    [Example.requests_row; Example.mylib_row]).
  { constructor; [right; eexists; reflexivity|].
    constructor; [left; reflexivity | constructor]. }
  split; [exact Hpass|]. split; [reflexivity|]. split; [reflexivity|].
  destruct (check_pypi_stops_at_failure Example.env
              [Example.requests_row; Example.mylib_row] Example.flaky_row
              [Example.django_row] IndexUnavailable Example.synced Hpass
              eq_refl eq_refl)
    as (w' & Hrun & Hdb & Hq & _).
  exists w'. split; [exact Hrun|].
  split; [rewrite Hq; vm_compute; reflexivity|].
  rewrite Hdb. vm_compute. reflexivity.
Defined.

Lemma check_pypi_agrees_with_remote_witness :
  Forall (passes Example.env) Example.good_selection ∧
  ∃ w',
    check_pypi Example.env Example.good_selection Example.synced
      = (Ok (), w') ∧
    db w' = db (remote Example.env (Some Example.good_selection)
                  Example.synced).2.
Proof.
  assert (Hpass : Forall (passes Example.env) Example.good_selection).
  { constructor; [right; eexists; reflexivity|].
    constructor; [left; reflexivity|].
    constructor; [right; eexists; reflexivity | constructor]. }
  split; [exact Hpass|].
  destruct (check_pypi_agrees_with_remote Example.env Example.good_selection
              Example.synced Hpass) as (w' & Hrun & _ & _ & Hsame).
  exists w'. split; [exact Hrun|]. apply Hsame. discriminate.
Defined.

Lemma queryset_coverage_witness :
  (Example.requests_row ∈ [Example.requests_row; Example.unversioned_row]) ∧
  ∃ v, v ∈ lookups.*1 ∧
    Example.requests_row
      ∈ queryset (Some v) [Example.requests_row; Example.unversioned_row].
Proof.
  assert (Hin : Example.requests_row
                  ∈ [Example.requests_row; Example.unversioned_row])
    by left.
  split; [exact Hin|].
  apply (queryset_coverage _ _ Hin). intros [Hc _]. discriminate Hc.
Defined.

Lemma updateable_and_filter_witness :
  (Example.unversioned_row
     ∈ [Example.requests_row; Example.unversioned_row]) ∧
  _updateable Example.unversioned_row = Some true ∧
  _updateable Example.requests_row = None.
Proof.
  assert (Hin : Example.unversioned_row
                  ∈ [Example.requests_row; Example.unversioned_row])
    by (right; left).
  split; [exact Hin|].
  destruct (updateable_and_filter _ _ Hin) as [_ Hcol].
  destruct (Hcol eq_refl) as (_ & _ & _ & Hlost).
  split; [apply Hlost; [reflexivity | discriminate]|].
  reflexivity.
Defined.



Lemma local_twice_witness :
  let w1 := (local Example.env Example.manifest Example.empty_world).2 in
  let w2 := (local Example.env Example.manifest w1).2 in
  db w2 = db w1 ∧
  ∃ lines, log w2 = log w1 ++ lines ∧
    (INFO, MsgPackageExists (Some "requests")) ∈ lines.
Proof.
  destruct (local_twice Example.env Example.manifest Example.empty_world)
    as (Hdb & lines & Hlog & _ & Hexists).
  split; [exact Hdb|]. exists lines. split; [exact Hlog|].
  apply (Hexists (Example.pinned "requests" "2.0.0")). in_batch 0.
Defined.

Lemma remote_names_witness :
  falsy None = true ∧ store_ok (db Example.synced) ∧
  dom (db (remote Example.env None Example.synced).2)
    = dom (db Example.synced).
Proof.
  assert (Hok : store_ok (db Example.synced))
    by apply store_ok_local, store_ok_empty.
  split; [reflexivity|]. split; [exact Hok|].
  destruct (remote_names Example.env None Example.synced) as [_ Hsame].
  exact (Hsame eq_refl Hok).
Defined.

Lemma queryset_only_drops_witness :
  ("maybe" ∉ lookups.*1) ∧
  queryset (Some "maybe") [Example.requests_row; Example.unversioned_row]
    = [Example.requests_row; Example.unversioned_row].
Proof.
  assert (Hnot : "maybe" ∉ lookups.*1).
  { intros [H|[H|H]]%lookups_values; discriminate H. }
  split; [exact Hnot|].
  destruct (queryset_only_drops (Some "maybe")
              [Example.requests_row; Example.unversioned_row])
    as (_ & _ & Hall).
  apply Hall. right. exists "maybe". split; [reflexivity | exact Hnot].
Defined.

Lemma html_list_empty_only_for_None_witness :
  String.length (html_list (Some ["a"; "bc"])) = 30 ∧
  html_list (Some []) ≠ "".
Proof.
  split.
  - destruct (html_list_empty_only_for_None (Some ["a"; "bc"])) as [_ Hlen].
    rewrite (Hlen _ eq_refl). reflexivity.
  - destruct (html_list_empty_only_for_None (Some [])) as [Hiff _].
    intros H. apply Hiff in H. discriminate H.
Defined.
